(** * User-identifier resolution of the Jira MCP server

    Shallow embedding of [src/services/vendor.atlassian.users.service.ts]:
    the classifier predicates [isAccountId] and [isEmail], the in-memory
    [UserCache] with its one-hour TTL, the two search strategies
    [searchUsersWithPicker] and [searchUsers], and [resolveUserIdentifier].

    JavaScript strings are modelled as [string] (lists of 8-bit [ascii]
    characters), read as UTF-16 code units in the Latin-1 range. *)

From Stdlib Require Import ZArith Lia Ascii String.
From stdpp Require Import base gmap strings list fin_maps.

Open Scope Z_scope.

(** ** Character classes *)

Definition code (c : ascii) : Z := Z.of_nat (nat_of_ascii c).

(** [[0-9a-f]] *)
Definition is_lower_hex (c : ascii) : bool :=
  ((48 <=? code c) && (code c <=? 57)) || ((97 <=? code c) && (code c <=? 102)).

(** [[0-9a-f-]] *)
Definition is_hex_or_hyphen (c : ascii) : bool :=
  is_lower_hex c || (code c =? 45).

(** [\s] restricted to the Latin-1 range: tab, LF, VT, FF, CR, space and
    no-break space (U+00A0). *)
Definition is_space (c : ascii) : bool :=
  ((9 <=? code c) && (code c <=? 13)) || (code c =? 32) || (code c =? 160).

(** [[^\s@]] *)
Definition not_space_at (c : ascii) : bool :=
  negb (is_space c) && negb (code c =? 64).

Fixpoint all_chars (p : ascii -> bool) (s : string) : bool :=
  match s with
  | EmptyString => true
  | String c s' => p c && all_chars p s'
  end.

(** [String.prototype.toLowerCase] on the Latin-1 range: [A-Z],
    [U+00C0-U+00D6] and [U+00D8-U+00DE] move down by 32; every other
    character of the range is its own lower case. *)
Definition lower_char (c : ascii) : ascii :=
  let n := code c in
  if ((65 <=? n) && (n <=? 90)) || ((192 <=? n) && (n <=? 222) && negb (n =? 215))
  then ascii_of_nat (Z.to_nat (n + 32))
  else c.

Fixpoint toLowerCase (s : string) : string :=
  match s with
  | EmptyString => EmptyString
  | String c s' => String (lower_char c) (toLowerCase s')
  end.

(** ** Classifier *)

(** [/^[0-9a-f]{n}:/]: [n] lower-case hex digits, then a colon, then
    anything. *)
Fixpoint hex_prefix_colon (n : nat) (s : string) : bool :=
  match n, s with
  | O, String c _ => code c =? 58
  | S n', String c s' => is_lower_hex c && hex_prefix_colon n' s'
  | _, EmptyString => false
  end.

Fixpoint any_char (p : ascii -> bool) (s : string) : bool :=
  match s with
  | EmptyString => false
  | String c s' => p c || any_char p s'
  end.

Definition is_colon (c : ascii) : bool := code c =? 58.

(** [[A-F]] *)
Definition is_upper_hex (c : ascii) : bool := (65 <=? code c) && (code c <=? 70).

(** [/^[0-9a-f-]{36}$/] *)
Definition uuid_shape (s : string) : bool :=
  Nat.eqb (String.length s) 36 && all_chars is_hex_or_hyphen s.

(** [isAccountId(identifier)]:
    [/^[0-9a-f]{6}:/.test(identifier) || /^[0-9a-f-]{36}$/.test(identifier)] *)
Definition isAccountId (identifier : string) : bool :=
  hex_prefix_colon 6 identifier || uuid_shape identifier.

(** [/\.[^\s@]+$/] on what follows the first character of the domain:
    a dot that is not the last character, with everything [[^\s@]]. *)
Fixpoint dot_before_end (s : string) : bool :=
  match s with
  | EmptyString => false
  | String c s' =>
      (bool_decide (c = "."%char) && negb (String.eqb s' EmptyString))
      || dot_before_end s'
  end.

(** Split at the first [@]. *)
Fixpoint split_at (s : string) : option (string * string) :=
  match s with
  | EmptyString => None
  | String c s' =>
      if bool_decide (c = "@"%char) then Some (EmptyString, s')
      else match split_at s' with
           | Some (a, b) => Some (String c a, b)
           | None => None
           end
  end.

(** [isEmail(identifier)]: [/^[^\s@]+@[^\s@]+\.[^\s@]+$/.test(identifier)].
    The local part is everything before the first [@] (it contains no
    [@]); the domain must be non-empty, free of [\s] and [@], and contain a
    dot after its first character and before its last one. *)
Definition isEmail (identifier : string) : bool :=
  match split_at identifier with
  | Some (local, domain) =>
      negb (String.eqb local EmptyString)
      && all_chars not_space_at local
      && all_chars not_space_at domain
      && match domain with
         | EmptyString => false
         | String _ rest => dot_before_end rest
         end
  | None => false
  end.

(** ** Data model *)

(** [UserSchema] (the fields the resolver reads; [avatarUrls] and
    [accountType] are never consulted). *)
Record User := mkUser {
  accountId : string;
  emailAddress : option string;
  displayName : option string;
  name : option string;
  active : option bool
}.

(** [GroupUserPickerResponse]: only [users?.users] is read; [None] is a
    response without a [users] section. *)
Definition GroupUserPickerResponse := option (list User).

Record Credentials := mkCredentials {
  siteName : string; userEmail : string; apiToken : string
}.

(** Errors thrown inside the service: [createAuthMissingError] and the
    transport's HTTP failure. *)
Inductive Exn := AuthMissing | HttpError (status : Z) (body : string).

Inductive Res (A : Type) := Ok (a : A) | Err (e : Exn).
Arguments Ok {A} a.
Arguments Err {A} e.

(** The external collaborators: [getAtlassianCredentials()] and the JSON that
    [fetchAtlassian] yields (or the error it throws) for the picker path
    [/rest/api/3/groupuserpicker?query=..] and the search path
    [/rest/api/3/user/search?query=..]. On the strings of this model
    [encodeURIComponent] is defined and injective, so the responses are
    indexed by the raw query. In JavaScript it throws [URIError] on a lone
    UTF-16 surrogate, which a Latin-1 [string] cannot hold: the strategies
    then return [null] from their [catch] without any transport call. The
    properties below about transport calls and [null] results are stated
    so that they also hold on that path (a [null] is tied to a transport
    call only when one is recorded). *)
Record Env := mkEnv {
  getAtlassianCredentials : option Credentials;
  picker_endpoint : string -> Res GroupUserPickerResponse;
  search_endpoint : string -> Res (list User)
}.

(** One invocation of [fetchAtlassian]. *)
Inductive Call := PickerCall (query : string) | SearchCall (query : string).

(** ** UserCache *)

Record CacheEntry := mkEntry { entry_accountId : string; timestamp : Z }.

(** [private readonly TTL = 1000 * 60 * 60] *)
Definition TTL : Z := 1000 * 60 * 60.

(** [UserCache.get] at clock value [now] ([Date.now()]). *)
Definition cache_get (now : Z) (identifier : string) (c : gmap string CacheEntry)
    : option string * gmap string CacheEntry :=
  match c !! toLowerCase identifier with
  | Some cached =>
      if now - timestamp cached <? TTL then (Some (entry_accountId cached), c)
      else (None, delete (toLowerCase identifier) c)
  | None => (None, c)
  end.

(** [UserCache.set] *)
Definition cache_set (now : Z) (identifier accountId : string)
    (c : gmap string CacheEntry) : gmap string CacheEntry :=
  <[toLowerCase identifier := mkEntry accountId now]> c.

(** [UserCache.clear] *)
Definition cache_clear (c : gmap string CacheEntry) : gmap string CacheEntry := ∅.

(** ** The service monad: state (the module-level [userCache] and the log of
    transport invocations) and exceptions. *)

Record St := mkSt { cache : gmap string CacheEntry; calls : list Call }.

Definition M (A : Type) := St -> Res A * St.

Definition ret {A} (a : A) : M A := fun s => (Ok a, s).
Definition bind {A B} (m : M A) (k : A -> M B) : M B :=
  fun s => match m s with
           | (Ok a, s') => k a s'
           | (Err e, s') => (Err e, s')
           end.
Definition throw {A} (e : Exn) : M A := fun s => (Err e, s).
(** [try { body } catch (error) { handler }] *)
Definition try_catch {A} (body : M A) (handler : Exn -> M A) : M A :=
  fun s => match body s with
           | (Err e, s') => handler e s'
           | r => r
           end.

Notation "x <-- m ;; k" := (bind m (fun x => k))
  (at level 100, m at next level, right associativity).

Definition get_st : M St := fun s => (Ok s, s).
Definition put_cache (c : gmap string CacheEntry) : M unit :=
  fun s => (Ok tt, mkSt c (calls s)).

(** [fetchAtlassian(credentials, path)]: the invocation is logged, then the
    endpoint answers or throws. *)
Definition fetch {A} (call : Call) (answer : Res A) : M A :=
  fun s => (answer, mkSt (cache s) (calls s ++ [call])).

Definition userCache_get (now : Z) (identifier : string) : M (option string) :=
  s <-- get_st ;;
  let '(r, c') := cache_get now identifier (cache s) in
  _ <-- put_cache c' ;;
  ret r.

Definition userCache_set (now : Z) (identifier accountId : string) : M unit :=
  s <-- get_st ;;
  put_cache (cache_set now identifier accountId (cache s)).

(** ** Search strategies *)

Section Strategies.
Variable env : Env.

(** [searchUsersWithPicker(query)] *)
Definition searchUsersWithPicker (query : string) : M (option (list User)) :=
  try_catch
    (match getAtlassianCredentials env with
     | None => throw AuthMissing
     | Some credentials =>
         response <-- fetch (PickerCall query) (picker_endpoint env query) ;;
         (* [return response.users?.users || null] (an array is truthy) *)
         ret (match response with
              | Some users => Some users
              | None => None
              end)
     end)
    (fun _ => ret None).

(** [searchUsers(query)] *)
Definition searchUsers (query : string) : M (option (list User)) :=
  try_catch
    (match getAtlassianCredentials env with
     | None => throw AuthMissing
     | Some credentials =>
         response <-- fetch (SearchCall query) (search_endpoint env query) ;;
         ret (Some response)
     end)
    (fun _ => ret None).

(** ** resolveUserIdentifier *)

(** [u?.field?.toLowerCase() === identifier.toLowerCase()] *)
Definition field_matches (identifier : string) (field : option string) : bool :=
  match field with
  | Some v => String.eqb (toLowerCase v) (toLowerCase identifier)
  | None => false
  end.

(** The predicate of [users.find(..)]. *)
Definition exact_match (identifier : string) (u : User) : bool :=
  field_matches identifier (emailAddress u)
  || field_matches identifier (name u)
  || field_matches identifier (displayName u).

(** [!users || users.length === 0] *)
Definition no_results (users : option (list User)) : bool :=
  match users with
  | Some (_ :: _) => false
  | _ => true
  end.

(** [let user = users.find(..); if (!user) user = users[0];] for a
    non-empty [users = u0 :: rest]. *)
Definition choose_user (identifier : string) (u0 : User) (rest : list User) : User :=
  match List.find (exact_match identifier) (u0 :: rest) with
  | Some u => u
  | None => u0
  end.

(** The part of [resolveUserIdentifier] after the cache check: the
    strategies in order, then disambiguation and caching. *)
Definition resolve_by_search (now : Z) (identifier : string) : M (option string) :=
  users <-- (if isEmail identifier then searchUsersWithPicker identifier
             else ret None) ;;
  users <-- (if no_results users then searchUsers identifier else ret users) ;;
  users <-- (if no_results users then searchUsersWithPicker identifier
             else ret users) ;;
  match users with
  | Some (u0 :: rest) =>
      let user := choose_user identifier u0 rest in
      if negb (String.eqb (accountId user) EmptyString) then
        _ <-- userCache_set now identifier (accountId user) ;;
        ret (Some (accountId user))
      else ret None
  | _ => ret None
  end.

(** The part of [resolveUserIdentifier] after the [isAccountId] check:
    [const cached = userCache.get(identifier); if (cached) return cached;]
    then the search chain (an empty string is falsy). *)
Definition resolve_via_cache (now : Z) (identifier : string) : M (option string) :=
  cached <-- userCache_get now identifier ;;
  match cached with
  | Some a => if String.eqb a EmptyString then resolve_by_search now identifier
              else ret (Some a)
  | None => resolve_by_search now identifier
  end.

(** [resolveUserIdentifier(identifier)] at clock value [now]. *)
Definition resolveUserIdentifier (now : Z) (identifier : string) : M (option string) :=
  if String.eqb identifier EmptyString then ret None
  else if isAccountId identifier then ret (Some identifier)
  else resolve_via_cache now identifier.

End Strategies.

(** [clearUserCache()] *)
Definition clearUserCache : M unit :=
  s <-- get_st ;; put_cache (cache_clear (cache s)).

(** ** What one resolution observes

    The value each strategy hands back to the resolver, and the transport
    calls it issues, read off the environment. *)

Definition picker_result (env : Env) (q : string) : option (list User) :=
  match getAtlassianCredentials env with
  | None => None
  | Some _ => match picker_endpoint env q with
              | Ok (Some users) => Some users
              | _ => None
              end
  end.

Definition search_result (env : Env) (q : string) : option (list User) :=
  match getAtlassianCredentials env with
  | None => None
  | Some _ => match search_endpoint env q with
              | Ok users => Some users
              | Err _ => None
              end
  end.

Definition picker_calls (env : Env) (q : string) : list Call :=
  match getAtlassianCredentials env with None => [] | Some _ => [PickerCall q] end.

Definition search_calls (env : Env) (q : string) : list Call :=
  match getAtlassianCredentials env with None => [] | Some _ => [SearchCall q] end.

(** Candidates after step (a) of the chain. *)
Definition step_a (env : Env) (identifier : string) : option (list User) :=
  if isEmail identifier then picker_result env identifier else None.

(** Candidates after step (b). *)
Definition step_b (env : Env) (identifier : string) : option (list User) :=
  let users := step_a env identifier in
  if no_results users then search_result env identifier else users.

(** Candidates after step (c). *)
Definition chain_result (env : Env) (identifier : string) : option (list User) :=
  let users := step_b env identifier in
  if no_results users then picker_result env identifier else users.

Definition chain_calls (env : Env) (identifier : string) : list Call :=
  (if isEmail identifier then picker_calls env identifier else [])
  ++ (if no_results (step_a env identifier)
      then search_calls env identifier
           ++ (if no_results (step_b env identifier)
               then picker_calls env identifier else [])
      else []).

(** The account id chosen from a candidate list, if any. *)
Definition found_in (identifier : string) (users : option (list User)) : option string :=
  match users with
  | Some (u0 :: rest) =>
      let user := choose_user identifier u0 rest in
      if String.eqb (accountId user) EmptyString then None
      else Some (accountId user)
  | _ => None
  end.

(** The account id the chain settles on, if any. *)
Definition chain_found (env : Env) (identifier : string) : option string :=
  found_in identifier (chain_result env identifier).

(** The cache after a resolution: unchanged, or purged of the expired entry
    the read found, or given a fresh entry for the returned account id. *)
Definition cache_outcome (now : Z) (identifier : string)
    (before after : gmap string CacheEntry) (r : Res (option string)) : Prop :=
  after = before
  \/ (exists e, before !! toLowerCase identifier = Some e /\ TTL <= now - timestamp e
                /\ after = delete (toLowerCase identifier) before)
  \/ (exists a, r = Ok (Some a) /\ a <> EmptyString
                /\ after = <[toLowerCase identifier := mkEntry a now]> before).

(** ** Transitions formatter ([atlassian.issues.transitions.formatter.ts])

    The response and issue types live in [vendor.atlassian.issues.types],
    which is not part of the sources; the records below carry the fields the
    formatter and the controller read, with the optionality their uses and
    tests show. Text here is a [string] of UTF-8 bytes (the emoji lines are
    multi-byte); a pushed line is one element of the [lines] array. *)

Infix "+:+" := String.append (at level 60, right associativity).

Record StatusCategory := mkStatusCategory { sc_name : string; colorName : string }.

Record TargetStatus := mkTargetStatus {
  to_name : string;
  description : option string;
  statusCategory : option StatusCategory
}.

(** A value of [transition.fields]: only [required] and [name] are read. *)
Record TransitionField := mkTransitionField {
  required : bool;
  field_name : option string
}.

Record Transition := mkTransition {
  transition_id : string;
  transition_name : string;
  to : TargetStatus;
  hasScreen : bool;
  (** [Object.entries(transition.fields)], in the order it enumerates them *)
  transition_fields : option (list (string * TransitionField))
}.

Record GetTransitionsResponse := mkGetTransitionsResponse {
  transitions : option (list Transition)
}.

(** Decimal rendering of a non-negative integer ([`${n}`]). *)
Fixpoint decimal_aux (fuel n : nat) (acc : string) : string :=
  let acc' := String (ascii_of_nat (48 + Nat.modulo n 10)) acc in
  match fuel with
  | O => acc'
  | S fuel' => if Nat.ltb n 10 then acc' else decimal_aux fuel' (Nat.div n 10) acc'
  end.

Definition number_to_string (n : nat) : string := decimal_aux n n EmptyString.

(** [lines.join('\n')] *)
Fixpoint join_lines (lines : list string) : string :=
  match lines with
  | [] => EmptyString
  | [l] => l
  | l :: rest => l +:+ String "010"%char EmptyString +:+ join_lines rest
  end.

(** A JavaScript string is truthy when it is not empty. *)
Definition truthy (s : option string) : bool :=
  match s with
  | Some v => negb (String.eqb v EmptyString)
  | None => false
  end.

(** [- **${field.name || fieldId}** ${required}] *)
Definition field_line (entry : string * TransitionField) : string :=
  let '(fieldId, field) := entry in
  let label := if truthy (field_name field) then
                 match field_name field with Some n => n | None => fieldId end
               else fieldId in
  "- **" +:+ label +:+ "** "
  +:+ (if required field then "**[Required]**" else "[Optional]").

(** The lines [formatTransitions] pushes for [transition] at [index]. *)
Definition transition_lines (index : nat) (transition : Transition) : list string :=
  ["## " +:+ number_to_string (index + 1) +:+ ". " +:+ transition_name transition;
   "**ID:** `" +:+ transition_id transition +:+ "`";
   "**Target Status:** " +:+ to_name (to transition)]
  ++ (if truthy (description (to transition)) then
        ["**Description:** " +:+ match description (to transition) with
                                 | Some d => d | None => EmptyString end]
      else [])
  ++ (match statusCategory (to transition) with
      | Some sc => ["**Category:** " +:+ sc_name sc +:+ " (" +:+ colorName sc +:+ ")"]
      | None => []
      end)
  ++ (if hasScreen transition then
        [""; "⚠️ **Note:** This transition has a screen with additional fields."]
        ++ (match transition_fields transition with
            | Some (e :: es) =>
                [""; "### Required/Available Fields:"] ++ map field_line (e :: es)
            | _ => []
            end)
      else [])
  ++ [""; "---"; ""].

(** [response.transitions.forEach((transition, index) => ...)] *)
Fixpoint transition_blocks (index : nat) (ts : list Transition) : list string :=
  match ts with
  | [] => []
  | t :: rest => transition_lines index t ++ transition_blocks (S index) rest
  end.

Definition no_transitions_lines (issueIdOrKey : string) : list string :=
  ["# Available Transitions for " +:+ issueIdOrKey; "";
   "*No transitions available from the current status.*"; "";
   "This could mean:"; "- The issue is in a final state";
   "- You don't have permission to transition this issue";
   "- The workflow doesn't allow transitions from the current status"].

Definition usage_lines (issueIdOrKey : string) : list string :=
  ["## Usage";
   "To transition this issue, use the `jira_transition_issue` tool with:";
   "- `issueIdOrKey`: " +:+ issueIdOrKey;
   "- `transitionId`: One of the IDs listed above";
   "- `comment`: (optional) Add a comment with the transition";
   "- `fields`: (optional) Set additional fields if required"].

(** The [lines] array of [formatTransitions(response, issueIdOrKey)]. *)
Definition formatTransitions_lines (response : GetTransitionsResponse)
    (issueIdOrKey : string) : list string :=
  match transitions response with
  | None | Some [] => no_transitions_lines issueIdOrKey
  | Some ts =>
      ["# Available Transitions for " +:+ issueIdOrKey; ""]
      ++ ["Found **" +:+ number_to_string (length ts) +:+ "** available transition(s):"; ""]
      ++ transition_blocks 0 ts
      ++ usage_lines issueIdOrKey
  end.

Definition formatTransitions (response : GetTransitionsResponse)
    (issueIdOrKey : string) : string :=
  join_lines (formatTransitions_lines response issueIdOrKey).

(** [Issue], as far as [formatTransitionResult] reads it:
    [key], [fields.summary] and [fields.status?.name]. *)
Record Issue := mkIssue {
  issue_key : string;
  summary : string;
  status_name : option string
}.

Definition formatTransitionResult (issueIdOrKey transitionId : string)
    (updatedIssue : Issue) : string :=
  join_lines
    ["# Transition Completed Successfully"; "";
     "✅ Issue **" +:+ issueIdOrKey +:+ "** has been transitioned."; "";
     "## Updated Issue Status";
     "- **Issue:** " +:+ issue_key updatedIssue;
     "- **Summary:** " +:+ summary updatedIssue;
     "- **New Status:** " +:+ (if truthy (status_name updatedIssue) then
                                 match status_name updatedIssue with
                                 | Some n => n | None => "Unknown" end
                               else "Unknown");
     "";
     "The transition with ID `" +:+ transitionId +:+ "` was successfully applied."].

(** ** Transitions controller (same file) and tool

    The issues service ([vendor.atlassian.issues.service]) is external: each
    call is logged and answers from [IssuesEnv]. Values of type [unknown] in
    the tool arguments are JSON values. *)

#[local] Set Warnings "-register-all".
Inductive json :=
  | JNull | JBool (b : bool) | JNum (z : Z) | JStr (s : string)
  | JArr (xs : list json) | JObj (kvs : list (string * json)).

Record TransitionParams := mkTransitionParams {
  params_transition_id : string;
  params_fields : option (list (string * json));
  params_update : option (list (string * list json))
}.

(** [TransitionIssueToolArgsSchema] *)
Record TransitionIssueToolArgs := mkTransitionIssueToolArgs {
  issueIdOrKey : string;
  transitionId : string;
  comment : option string;
  fields : option (list (string * json));
  update : option (list (string * list json))
}.

(** An error thrown by the issues service (an [Error] and its message). *)
Record ServiceError := mkServiceError { message : string }.

Inductive ServiceCall :=
  | GetTransitionsCall (key : string)
  | TransitionIssueCall (key : string) (params : TransitionParams)
  | AddCommentCall (key : string) (body : string)
  | GetIssueCall (key : string) (fields : list string).

Inductive SRes (A : Type) := SOk (a : A) | SErr (e : ServiceError).
Arguments SOk {A} a.
Arguments SErr {A} e.

Record IssuesEnv := mkIssuesEnv {
  getTransitions_answer : string -> SRes GetTransitionsResponse;
  transitionIssue_answer : string -> TransitionParams -> SRes unit;
  addComment_answer : string -> string -> SRes unit;
  get_answer : string -> list string -> SRes Issue
}.

(** The controller monad: the log of service calls, and thrown errors. *)
Definition CM (A : Type) := list ServiceCall -> SRes A * list ServiceCall.

Definition cret {A} (a : A) : CM A := fun l => (SOk a, l).
Definition cbind {A B} (m : CM A) (k : A -> CM B) : CM B :=
  fun l => match m l with
           | (SOk a, l') => k a l'
           | (SErr e, l') => (SErr e, l')
           end.

Notation "x <~ m ;; k" := (cbind m (fun x => k))
  (at level 100, m at next level, right associativity).

Definition service_call {A} (call : ServiceCall) (answer : SRes A) : CM A :=
  fun l => (answer, l ++ [call]).

Section Controller.
Variable ienv : IssuesEnv.

(** Controller [getTransitions(args)]; the result is [content]. *)
Definition controller_getTransitions (issueIdOrKey : string) : CM string :=
  response <~ service_call (GetTransitionsCall issueIdOrKey)
                           (getTransitions_answer ienv issueIdOrKey) ;;
  cret (formatTransitions response issueIdOrKey).

(** Controller [transitionIssue(args)]; the result is [content]. *)
Definition controller_transitionIssue (args : TransitionIssueToolArgs) : CM string :=
  let transitionParams :=
    mkTransitionParams (transitionId args) (fields args) (update args) in
  _ <~ service_call (TransitionIssueCall (issueIdOrKey args) transitionParams)
                    (transitionIssue_answer ienv (issueIdOrKey args) transitionParams) ;;
  _ <~ (if truthy (comment args) then
          let c := match comment args with Some c => c | None => EmptyString end in
          service_call (AddCommentCall (issueIdOrKey args) c)
                       (addComment_answer ienv (issueIdOrKey args) c)
        else cret tt) ;;
  updatedIssue <~ service_call (GetIssueCall (issueIdOrKey args) ["status"; "summary"])
                               (get_answer ienv (issueIdOrKey args) ["status"; "summary"]) ;;
  cret (formatTransitionResult (issueIdOrKey args) (transitionId args) updatedIssue).

(** The MCP content items: [{ type: 'text', text }]. *)
Record McpContent := mkText { text : string }.

(** [formatErrorForMcpTool(err).content] ([utils/error.util], not part of
    the sources) is left as a parameter. *)
Variable formatErrorForMcpTool_content : ServiceError -> list McpContent.

(** [try { ... return { content: [{ type: 'text', text: result.content }] } }
    catch (err) { return { content: formatErrorForMcpTool(err).content } }] *)
Definition tool_wrap (controller : CM string) : CM (list McpContent) :=
  fun l => match controller l with
           | (SOk content, l') => (SOk [mkText content], l')
           | (SErr err, l') => (SOk (formatErrorForMcpTool_content err), l')
           end.

(** Tool [getTransitions(args)] *)
Definition tool_getTransitions (issueIdOrKey : string) : CM (list McpContent) :=
  tool_wrap (controller_getTransitions issueIdOrKey).

(** Tool [transitionIssue(args)] *)
Definition tool_transitionIssue (args : TransitionIssueToolArgs) : CM (list McpContent) :=
  tool_wrap (controller_transitionIssue args).

End Controller.

(** ** The scenarios of the formatter's test file *)

Definition to_do : Transition :=
  mkTransition "11" "To Do"
    (mkTargetStatus "To Do" (Some "Work has not started")
       (Some (mkStatusCategory "To Do" "blue-gray"))) false None.

Definition in_progress : Transition :=
  mkTransition "21" "In Progress"
    (mkTargetStatus "In Progress" (Some "Work is ongoing")
       (Some (mkStatusCategory "In Progress" "yellow"))) false None.

Definition done_with_screen : Transition :=
  mkTransition "31" "Done" (mkTargetStatus "Done" (Some "Work is complete") None) true
    (Some [("resolution", mkTransitionField true (Some "Resolution"));
           ("comment", mkTransitionField false (Some "Comment"))]).

(** ** The scenarios of the service's test file *)

Definition test_credentials : Credentials :=
  mkCredentials "test" "admin@example.com" "test-token".

Definition user_of (id email display : string) : User :=
  mkUser id (Some email) (Some display) None (Some true).

Definition empty_st : St := mkSt ∅ [].

(** [mockedFetchAtlassian.mockResolvedValue(r)]: every path answers [r]. *)
Definition env_const (picker : GroupUserPickerResponse) (search : list User) : Env :=
  mkEnv (Some test_credentials) (fun _ => Ok picker) (fun _ => Ok search).

Definition john : User := user_of "557058:user-id-123" "john.doe@example.com" "John Doe".

(** No credentials configured; the endpoints would answer with [john]. *)
Definition env_no_credentials : Env :=
  mkEnv None (fun _ => Ok (Some [john])) (fun _ => Ok [john]).

(** Directory search refused (HTTP 403); the picker finds [john]. *)
Definition env_directory_denied : Env :=
  mkEnv (Some test_credentials) (fun _ => Ok (Some [john]))
        (fun _ => Err (HttpError 403 "Forbidden")).

(** A cache holding an expired entry for ["nobody@example.com"]. *)
Definition st_expired : St :=
  mkSt {[ "nobody@example.com" := mkEntry "557058:old-user" 0 ]} [].

(** The picker finds nobody, the directory search finds [cached]. *)
Definition cached : User :=
  user_of "557058:cached-user" "cached@example.com" "Cached User".

Definition env_directory_hit : Env := env_const (Some []) [cached].

(** ** Summaries of the controller's and the formatter's behaviour *)

(** The service calls [transitionIssue(args)] makes when none of them fails. *)
Definition transitionIssue_calls (args : TransitionIssueToolArgs) : list ServiceCall :=
  [TransitionIssueCall (issueIdOrKey args)
     (mkTransitionParams (transitionId args) (fields args) (update args))]
  ++ (if truthy (comment args)
      then [AddCommentCall (issueIdOrKey args)
              (match comment args with Some c => c | None => EmptyString end)]
      else [])
  ++ [GetIssueCall (issueIdOrKey args) ["status"; "summary"]].

Definition error_of {A} (r : SRes A) : option ServiceError :=
  match r with SOk _ => None | SErr e => Some e end.

(** The error the issues service throws for [call], if any. *)
Definition call_error (ienv : IssuesEnv) (call : ServiceCall) : option ServiceError :=
  match call with
  | GetTransitionsCall k => error_of (getTransitions_answer ienv k)
  | TransitionIssueCall k p => error_of (transitionIssue_answer ienv k p)
  | AddCommentCall k c => error_of (addComment_answer ienv k c)
  | GetIssueCall k fs => error_of (get_answer ienv k fs)
  end.

(** Line classifiers for the markdown of [formatTransitions]. *)
Definition is_heading (line : string) : bool := String.prefix "## " line.

Definition is_rule (line : string) : bool := String.eqb line "---".

Definition is_field_line (line : string) : bool := String.prefix "- **" line.

(** The number of field lines a transition gets: its fields when it has a
    screen. *)
Definition screen_field_count (t : Transition) : nat :=
  if hasScreen t
  then match transition_fields t with Some es => length es | None => 0%nat end
  else 0%nat.

(** Decimal digits read back as a number. *)
Fixpoint decimal_value_aux (s : string) (acc : nat) : nat :=
  match s with
  | EmptyString => acc
  | String c s' => decimal_value_aux s' (acc * 10 + (nat_of_ascii c - 48))%nat
  end.

Definition decimal_value (s : string) : nat := decimal_value_aux s 0%nat.

Definition is_digit (c : ascii) : bool :=
  Nat.leb 48 (nat_of_ascii c) && Nat.leb (nat_of_ascii c) 57.

(** [text.split('\n')]: the lines of a string; [""] splits into [[""]]. *)
Fixpoint split_lines (s : string) : list string :=
  match s with
  | EmptyString => [EmptyString]
  | String c s' =>
      if Ascii.eqb c "010"%char then EmptyString :: split_lines s'
      else match split_lines s' with
           | l :: ls => String c l :: ls
           | [] => [String c EmptyString]
           end
  end.

Definition no_newline (s : string) : bool :=
  all_chars (fun c => negb (Ascii.eqb c "010"%char)) s.

(** The text of a field entry [formatTransitions] may print contains no
    line break. *)
Definition field_text_ok (entry : string * TransitionField) : bool :=
  let '(fieldId, field) := entry in
  no_newline fieldId
  && match field_name field with Some n => no_newline n | None => true end.

(** The text of a transition [formatTransitions] may print contains no
    line break. *)
Definition transition_text_ok (t : Transition) : bool :=
  no_newline (transition_id t) && no_newline (transition_name t)
  && no_newline (to_name (to t))
  && match description (to t) with Some d => no_newline d | None => true end
  && match statusCategory (to t) with
     | Some sc => no_newline (sc_name sc) && no_newline (colorName sc)
     | None => true
     end
  && match transition_fields t with Some es => forallb field_text_ok es | None => true end.

(** No text interpolated by [formatTransitions(response, issueIdOrKey)]
    contains a line break. *)
Definition response_text_ok (response : GetTransitionsResponse) (issueIdOrKey : string) : bool :=
  no_newline issueIdOrKey
  && match transitions response with Some ts => forallb transition_text_ok ts | None => true end.

(** The scenarios of the controller's test file. *)
Definition ienv_ok : IssuesEnv :=
  mkIssuesEnv (fun _ => SOk (mkGetTransitionsResponse (Some [to_do; in_progress])))
    (fun _ _ => SOk tt) (fun _ _ => SOk tt)
    (fun k _ => SOk (mkIssue k "Test Issue" (Some "In Progress"))).

Definition ienv_comment_fails : IssuesEnv :=
  mkIssuesEnv (fun _ => SOk (mkGetTransitionsResponse (Some [])))
    (fun _ _ => SOk tt) (fun _ _ => SErr (mkServiceError "Failed to add comment"))
    (fun k _ => SOk (mkIssue k "Test Issue" (Some "In Progress"))).

Definition args_with_comment : TransitionIssueToolArgs :=
  mkTransitionIssueToolArgs "TEST-123" "21" (Some "Starting work on this issue")
    (Some [("assignee", JObj [("accountId", JStr "user123")])]) None.

Definition args_failing_comment : TransitionIssueToolArgs :=
  mkTransitionIssueToolArgs "TEST-999" "21" (Some "This will fail") None None.

Example isAccountId_tests :
  isAccountId "557058:12345678-1234-1234-1234-123456789abc" = true /\
  isAccountId "5bc73a:abcdef12-3456-7890-abcd-ef1234567890" = true /\
  isAccountId "12345678-1234-1234-1234-123456789abc" = true /\
  isAccountId "john.doe@example.com" = false /\
  isAccountId "johndoe" = false /\ isAccountId "John Doe" = false /\
  isAccountId "" = false.
Proof. vm_compute. tauto. Qed.

Example isEmail_tests :
  isEmail "john.doe@example.com" = true /\ isEmail "user+tag@domain.co.uk" = true /\
  isEmail "test.email@sub.domain.org" = true /\ isEmail "johndoe" = false /\
  isEmail "John Doe" = false /\ isEmail "557058:12345678" = false /\
  isEmail "@example.com" = false /\ isEmail "user@" = false /\ isEmail "" = false /\
  isEmail "a@.b" = false /\ isEmail "a@b." = false /\ isEmail "a@b.c" = true.
Proof. vm_compute. tauto. Qed.

Example resolve_email_by_picker :
  resolveUserIdentifier (env_const (Some [john]) []) 0 "john.doe@example.com" empty_st
  = (Ok (Some "557058:user-id-123"),
     mkSt {[ "john.doe@example.com" := mkEntry "557058:user-id-123" 0 ]}
          [PickerCall "john.doe@example.com"]).
Proof. vm_compute. reflexivity. Qed.

Example resolve_username_by_search :
  fst (resolveUserIdentifier
         (env_const None [mkUser "557058:user-id-456" None (Some "John Doe") (Some "johndoe") (Some true)])
         0 "johndoe" empty_st)
  = Ok (Some "557058:user-id-456").
Proof. vm_compute. reflexivity. Qed.

Example resolve_not_found :
  resolveUserIdentifier (env_const (Some []) []) 0 "nonexistent@example.com" empty_st
  = (Ok None, mkSt ∅ [PickerCall "nonexistent@example.com";
                      SearchCall "nonexistent@example.com";
                      PickerCall "nonexistent@example.com"]).
Proof. vm_compute. reflexivity. Qed.

Example formatTransitions_basic :
  let ls := formatTransitions_lines (mkGetTransitionsResponse (Some [to_do; in_progress])) "TEST-123" in
  In "# Available Transitions for TEST-123" ls /\ In "Found **2** available transition(s):" ls
  /\ In "## 1. To Do" ls /\ In "**ID:** `11`" ls /\ In "**Target Status:** To Do" ls
  /\ In "**Description:** Work has not started" ls /\ In "**Category:** To Do (blue-gray)" ls
  /\ In "## 2. In Progress" ls /\ In "**ID:** `21`" ls /\ In "## Usage" ls
  /\ In "- `issueIdOrKey`: TEST-123" ls.
Proof. vm_compute. repeat split; repeat (first [left; reflexivity | right]). Qed.

Example formatTransitions_screen :
  let ls := formatTransitions_lines (mkGetTransitionsResponse (Some [done_with_screen])) "BUG-456" in
  In "⚠️ **Note:** This transition has a screen with additional fields." ls
  /\ In "### Required/Available Fields:" ls /\ In "- **Resolution** **[Required]**" ls
  /\ In "- **Comment** [Optional]" ls.
Proof. vm_compute. repeat split; repeat (first [left; reflexivity | right]). Qed.

Example number_to_string_tests :
  number_to_string 0 = "0" /\ number_to_string 7 = "7" /\ number_to_string 10 = "10"
  /\ number_to_string 305 = "305".
Proof. vm_compute. auto. Qed.

Example formatTransitionResult_unknown :
  formatTransitionResult "BUG-456" "31" (mkIssue "BUG-456" "Bug Issue" None)
  = join_lines ["# Transition Completed Successfully"; "";
                "✅ Issue **BUG-456** has been transitioned."; ""; "## Updated Issue Status";
                "- **Issue:** BUG-456"; "- **Summary:** Bug Issue"; "- **New Status:** Unknown"; "";
                "The transition with ID `31` was successfully applied."].
Proof. vm_compute. reflexivity. Qed.

(** ** Equations of the strategies and of the chain *)

Lemma searchUsersWithPicker_eq env q s :
  searchUsersWithPicker env q s
  = (Ok (picker_result env q), mkSt (cache s) (calls s ++ picker_calls env q)).
Proof.
  destruct s as [c l].
  unfold searchUsersWithPicker, picker_result, picker_calls, try_catch.
  destruct (getAtlassianCredentials env); simpl.
  - unfold bind, fetch; simpl.
    destruct (picker_endpoint env q) as [[users|]|e]; reflexivity.
  - unfold throw, ret. simpl. rewrite app_nil_r. reflexivity.
Qed.

Lemma searchUsers_eq env q s :
  searchUsers env q s
  = (Ok (search_result env q), mkSt (cache s) (calls s ++ search_calls env q)).
Proof.
  destruct s as [c l].
  unfold searchUsers, search_result, search_calls, try_catch.
  destruct (getAtlassianCredentials env); simpl.
  - unfold bind, fetch; simpl.
    destruct (search_endpoint env q); reflexivity.
  - unfold throw, ret. simpl. rewrite app_nil_r. reflexivity.
Qed.

Lemma bind_step {A B} (m : M A) (k : A -> M B) s a s' :
  m s = (Ok a, s') -> bind m k s = k a s'.
Proof. intros H. unfold bind. rewrite H. reflexivity. Qed.

Lemma ret_step {A} (a : A) s : ret a s = (Ok a, s).
Proof. reflexivity. Qed.

Lemma found_in_step now identifier users s :
  (match users with
   | Some (u0 :: rest) =>
       let user := choose_user identifier u0 rest in
       if negb (String.eqb (accountId user) EmptyString) then
         _ <-- userCache_set now identifier (accountId user) ;;
         ret (Some (accountId user))
       else ret None
   | _ => ret None
   end) s
  = (Ok (found_in identifier users),
     mkSt (match found_in identifier users with
           | Some a => cache_set now identifier a (cache s)
           | None => cache s
           end) (calls s)).
Proof.
  destruct s as [c l].
  unfold found_in. destruct users as [[|u0 rest]|]; try reflexivity.
  simpl. destruct (String.eqb _ _); reflexivity.
Qed.

Lemma resolve_by_search_eq env now identifier s :
  resolve_by_search env now identifier s
  = (Ok (chain_found env identifier),
     mkSt (match chain_found env identifier with
           | Some a => cache_set now identifier a (cache s)
           | None => cache s
           end)
          (calls s ++ chain_calls env identifier)).
Proof.
  destruct s as [c l].
  unfold resolve_by_search, chain_found, chain_result, chain_calls, step_b, step_a.
  destruct (isEmail identifier).
  - erewrite bind_step by apply searchUsersWithPicker_eq. simpl.
    destruct (no_results (picker_result env identifier)) eqn:Ha.
    + erewrite bind_step by apply searchUsers_eq. simpl.
      destruct (no_results (search_result env identifier)) eqn:Hb.
      * erewrite bind_step by apply searchUsersWithPicker_eq.
        rewrite found_in_step. simpl. rewrite !app_assoc. reflexivity.
      * erewrite bind_step by apply ret_step.
        rewrite found_in_step. simpl. rewrite !app_nil_r, !app_assoc. reflexivity.
    + erewrite bind_step by apply ret_step. rewrite Ha.
      erewrite bind_step by apply ret_step.
      rewrite found_in_step. simpl. rewrite !app_nil_r. reflexivity.
  - erewrite bind_step by apply ret_step. simpl.
    erewrite bind_step by apply searchUsers_eq. simpl.
    destruct (no_results (search_result env identifier)) eqn:Hb.
    + erewrite bind_step by apply searchUsersWithPicker_eq.
      rewrite found_in_step. simpl. rewrite !app_assoc. reflexivity.
    + erewrite bind_step by apply ret_step.
      rewrite found_in_step. simpl. rewrite !app_nil_r. reflexivity.
Qed.

Lemma resolve_via_cache_eq env now identifier s :
  resolve_via_cache env now identifier s
  = let '(r, c') := cache_get now identifier (cache s) in
    match r with
    | Some a => if String.eqb a EmptyString
                then resolve_by_search env now identifier (mkSt c' (calls s))
                else (Ok (Some a), mkSt c' (calls s))
    | None => resolve_by_search env now identifier (mkSt c' (calls s))
    end.
Proof.
  destruct s as [c l]. unfold resolve_via_cache, userCache_get.
  unfold bind, get_st, put_cache, ret. simpl.
  destruct (cache_get now identifier c) as [[a|] c']; [|reflexivity].
  destruct (String.eqb a EmptyString); reflexivity.
Qed.

(** ** Characters and strings *)

Lemma code_colon (c : ascii) : is_colon c = true -> c = ":"%char.
Proof.
  unfold is_colon, code. intros H. apply Z.eqb_eq in H.
  assert (Hn : nat_of_ascii c = 58%nat) by lia.
  rewrite <- (ascii_nat_embedding c), Hn. reflexivity.
Qed.

Lemma all_chars_app (P : ascii -> bool) (s t : string) :
  all_chars P (s ++ t)%string = all_chars P s && all_chars P t.
Proof. induction s as [|c s IH]; simpl; [reflexivity|]. rewrite IH. apply andb_assoc. Qed.

Lemma any_char_app (P : ascii -> bool) (s t : string) :
  any_char P (s ++ t)%string = any_char P s || any_char P t.
Proof. induction s as [|c s IH]; simpl; [reflexivity|]. rewrite IH. apply orb_assoc. Qed.

Lemma all_any_char (P Q : ascii -> bool) (s : string) :
  all_chars P s = true -> any_char Q s = true -> exists c, P c = true /\ Q c = true.
Proof.
  induction s as [|c s IH]; simpl; [discriminate|].
  intros HP HQ. apply andb_true_iff in HP as [Hc Hs].
  apply orb_true_iff in HQ as [Hq|Hq]; eauto.
Qed.

Ltac char_ranges :=
  unfold is_hex_or_hyphen, is_lower_hex, is_upper_hex, is_colon in *;
  repeat rewrite ?andb_true_iff, ?orb_true_iff, ?Z.leb_le, ?Z.eqb_eq in *;
  lia.

Lemma lower_hex_not_colon c : is_lower_hex c = true -> is_colon c = false.
Proof. intros H. destruct (is_colon c) eqn:E; [|reflexivity]. exfalso; char_ranges. Qed.

Lemma hex_prefix_colon_spec n s :
  hex_prefix_colon n s = true <->
  exists p rest, String.length p = n /\ all_chars is_lower_hex p = true
                 /\ s = (p ++ String ":" rest)%string.
Proof.
  revert s. induction n as [|n IH]; intros [|c s]; simpl.
  - split; [discriminate|]. intros (p & rest & Hl & _ & Hs).
    destruct p; discriminate.
  - split.
    + intros H. apply code_colon in H. subst c. exists EmptyString, s. auto.
    + intros (p & rest & Hl & _ & Hs). destruct p; [|discriminate].
      injection Hs as -> _. reflexivity.
  - split; [discriminate|]. intros (p & rest & Hl & _ & Hs).
    destruct p; discriminate.
  - rewrite andb_true_iff, IH. split.
    + intros (Hc & p & rest & Hl & Hp & ->).
      exists (String c p), rest. simpl. rewrite Hc, Hp. auto.
    + intros (p & rest & Hl & Hp & Hs). destruct p as [|c' p]; [discriminate|].
      simpl in Hl, Hp. injection Hs as <- Hs. apply andb_true_iff in Hp as [Hc Hp].
      split; [exact Hc|]. exists p, rest. auto.
Qed.

Lemma first_colon_unique p r p' r' :
  any_char is_colon p = false -> any_char is_colon p' = false ->
  (p ++ String ":" r = p' ++ String ":" r')%string -> p = p'.
Proof.
  revert p'. induction p as [|c p IH]; intros [|c' p'] Hp Hp' H; simpl in *.
  - reflexivity.
  - injection H as <- _. discriminate.
  - injection H as -> _. discriminate.
  - apply orb_false_iff in Hp as [_ Hp]. apply orb_false_iff in Hp' as [_ Hp'].
    injection H as -> H. f_equal. eauto.
Qed.

Lemma all_lower_hex_no_colon p :
  all_chars is_lower_hex p = true -> any_char is_colon p = false.
Proof.
  induction p as [|c p IH]; simpl; [reflexivity|].
  intros H. apply andb_true_iff in H as [Hc Hp].
  rewrite lower_hex_not_colon by exact Hc. simpl. auto.
Qed.

Lemma hex_prefix_colon_has_colon s :
  hex_prefix_colon 6 s = true -> any_char is_colon s = true.
Proof.
  intros H. apply hex_prefix_colon_spec in H as (p & rest & _ & _ & ->).
  rewrite any_char_app. simpl. apply orb_true_iff. right. reflexivity.
Qed.

(** ** C1: a missing-credentials condition inside a strategy *)

Lemma strategies_without_credentials env q s :
  getAtlassianCredentials env = None ->
  searchUsersWithPicker env q s = (Ok None, s) /\ searchUsers env q s = (Ok None, s).
Proof.
  intros H. rewrite searchUsersWithPicker_eq, searchUsers_eq.
  unfold picker_result, search_result, picker_calls, search_calls. rewrite H.
  destruct s. simpl. rewrite app_nil_r. auto.
Qed.

Lemma chain_without_credentials env identifier :
  getAtlassianCredentials env = None ->
  chain_found env identifier = None /\ chain_calls env identifier = [].
Proof.
  intros H. unfold chain_found, chain_result, step_b, step_a, chain_calls,
    picker_result, search_result, picker_calls, search_calls.
  rewrite H. destruct (isEmail identifier); simpl; split; try reflexivity;
    repeat destruct (no_results _); reflexivity.
Qed.

(** C1 (the code's behaviour). When [getAtlassianCredentials()] yields
    nothing, the [AuthMissing] error each strategy throws is caught by the
    strategy's own [catch], so the strategies answer [null] and
    [resolveUserIdentifier] finishes normally with [null] for every
    non-empty, non-account-id identifier missing from the cache: no error
    leaves the resolver. *)
Theorem resolve_without_credentials_is_absent env now identifier s c' :
  getAtlassianCredentials env = None ->
  identifier <> EmptyString -> isAccountId identifier = false ->
  cache_get now identifier (cache s) = (None, c') ->
  resolveUserIdentifier env now identifier s = (Ok None, mkSt c' (calls s))
  /\ searchUsersWithPicker env identifier s = (Ok None, s)
  /\ searchUsers env identifier s = (Ok None, s).
Proof.
  intros Hc Hne Hacc Hget.
  destruct (strategies_without_credentials env identifier s Hc) as [Hp Hs].
  split; [|auto].
  unfold resolveUserIdentifier.
  destruct (String.eqb_spec identifier EmptyString) as [E|_]; [contradiction|].
  rewrite Hacc, resolve_via_cache_eq, Hget, resolve_by_search_eq.
  destruct (chain_without_credentials env identifier Hc) as [-> ->].
  simpl. rewrite app_nil_r. reflexivity.
Qed.

Lemma resolve_without_credentials_is_absent_witness :
  getAtlassianCredentials env_no_credentials = None /\
  "johndoe"%string <> EmptyString /\ isAccountId "johndoe" = false /\
  cache_get 0 "johndoe" (cache empty_st) = (None, ∅) /\
  resolveUserIdentifier env_no_credentials 0 "johndoe" empty_st = (Ok None, mkSt ∅ [])
  /\ searchUsersWithPicker env_no_credentials "johndoe" empty_st = (Ok None, empty_st)
  /\ searchUsers env_no_credentials "johndoe" empty_st = (Ok None, empty_st).
Proof.
  refine (conj eq_refl (conj _ (conj eq_refl (conj eq_refl _)))).
  - discriminate.
  - apply (resolve_without_credentials_is_absent env_no_credentials 0 "johndoe" empty_st ∅).
    + reflexivity.
    + discriminate.
    + vm_compute. reflexivity.
    + vm_compute. reflexivity.
Defined.

(** ** C2: the account-id shapes *)

(** C2 (counterexample). The claim that every string matching
    [^[0-9a-f]{1,8}:] is an account id fails: ["abc:x"] has a three-digit
    hex prefix and a colon, and [isAccountId] rejects it. *)
Lemma isAccountId_short_prefix_counterexample :
  ~ (forall s, (exists n, (1 <= n <= 8)%nat /\ hex_prefix_colon n s = true) ->
               isAccountId s = true).
Proof.
  intros H.
  assert (Hm : isAccountId "abc:x" = true).
  { apply H. exists 3%nat. split; [lia|]. vm_compute. reflexivity. }
  vm_compute in Hm. discriminate.
Qed.

(** C2 (amended). [isAccountId s] holds exactly when [s] starts with
    exactly six lower-case hex digits followed by a colon, or when [s] is
    36 characters long and made only of lower-case hex digits and hyphens;
    it is false on ["johndoe"], ["John Doe"] and [""]. *)
Theorem isAccountId_shapes s :
  (isAccountId s = true <->
   (exists p rest, String.length p = 6%nat /\ all_chars is_lower_hex p = true
                   /\ s = (p ++ String ":" rest)%string)
   \/ (String.length s = 36%nat /\ all_chars is_hex_or_hyphen s = true))
  /\ isAccountId "johndoe" = false /\ isAccountId "John Doe" = false
  /\ isAccountId "" = false.
Proof.
  split; [|vm_compute; auto].
  unfold isAccountId, uuid_shape.
  rewrite orb_true_iff, hex_prefix_colon_spec, andb_true_iff, Nat.eqb_eq.
  reflexivity.
Qed.

(** ** C10: upper-case hex is not an account id *)

Lemma colon_not_hex c : is_colon c = true -> is_hex_or_hyphen c = false.
Proof. intros H. destruct (is_hex_or_hyphen c) eqn:E; [exfalso; char_ranges|reflexivity]. Qed.

Lemma colon_not_hex_or_upper c :
  is_colon c = true -> is_hex_or_hyphen c || is_upper_hex c = false.
Proof.
  intros H. destruct (is_hex_or_hyphen c || is_upper_hex c) eqn:E; [|reflexivity].
  exfalso. char_ranges.
Qed.

Lemma upper_not_lower_hex c : is_upper_hex c = true -> is_lower_hex c = false.
Proof. intros H. destruct (is_lower_hex c) eqn:E; [exfalso; char_ranges|reflexivity]. Qed.

Lemma upper_not_hex_or_hyphen c : is_upper_hex c = true -> is_hex_or_hyphen c = false.
Proof. intros H. destruct (is_hex_or_hyphen c) eqn:E; [exfalso; char_ranges|reflexivity]. Qed.

Lemma all_chars_false (P Q : ascii -> bool) s :
  any_char Q s = true -> (forall c, Q c = true -> P c = false) -> all_chars P s = false.
Proof.
  intros HQ HPQ. destruct (all_chars P s) eqn:E; [|reflexivity].
  destruct (all_any_char P Q s E HQ) as (c & HP & Hc).
  rewrite (HPQ c Hc) in HP. discriminate.
Qed.

(** C10. Account-id classification is case-sensitive: a string whose part
    before its first colon holds an upper-case hex letter, or a 36-character
    string of hex digits (of either case) and hyphens holding an upper-case
    hex letter, is not an account id, so [resolveUserIdentifier] does not
    return it unchanged but goes on to the cache lookup and the search
    chain. *)
Theorem uppercase_hex_not_account_id env now s :
  ((exists p rest, s = (p ++ String ":" rest)%string
                   /\ any_char is_colon p = false /\ any_char is_upper_hex p = true)
   \/ (String.length s = 36%nat
       /\ all_chars (fun c => is_hex_or_hyphen c || is_upper_hex c) s = true
       /\ any_char is_upper_hex s = true)) ->
  isAccountId s = false
  /\ resolveUserIdentifier env now s = resolve_via_cache env now s.
Proof.
  intros Hs.
  assert (Hacc : isAccountId s = false).
  { unfold isAccountId, uuid_shape. apply orb_false_iff.
    destruct Hs as [(p & rest & -> & Hcol & Hup) | (Hlen & Hall & Hup)]; split.
    - destruct (hex_prefix_colon 6 _) eqn:E; [exfalso|reflexivity].
      apply hex_prefix_colon_spec in E as (p' & rest' & _ & Hp' & Heq).
      pose proof (first_colon_unique p rest p' rest' Hcol
                    (all_lower_hex_no_colon p' Hp') Heq) as <-.
      rewrite (all_chars_false is_lower_hex is_upper_hex p Hup upper_not_lower_hex) in Hp'.
      discriminate.
    - apply andb_false_iff. right.
      apply (all_chars_false _ is_colon); [|exact colon_not_hex].
      rewrite any_char_app. simpl. apply orb_true_iff. right. reflexivity.
    - destruct (hex_prefix_colon 6 s) eqn:E; [exfalso|reflexivity].
      apply hex_prefix_colon_has_colon in E.
      rewrite (all_chars_false _ is_colon s E colon_not_hex_or_upper) in Hall.
      discriminate.
    - apply andb_false_iff. right.
      exact (all_chars_false _ is_upper_hex s Hup upper_not_hex_or_hyphen). }
  split; [exact Hacc|].
  unfold resolveUserIdentifier. rewrite Hacc.
  destruct (String.eqb_spec s EmptyString) as [->|_]; [|reflexivity].
  exfalso. destruct Hs as [(p & rest & Heq & _) | (Hlen & _)].
  - destruct p; discriminate.
  - discriminate.
Qed.

Lemma uppercase_hex_not_account_id_witness :
  isAccountId "5570AB:x" = false
  /\ resolveUserIdentifier env_no_credentials 0 "5570AB:x"
     = resolve_via_cache env_no_credentials 0 "5570AB:x".
Proof.
  apply (uppercase_hex_not_account_id env_no_credentials 0 "5570AB:x").
  left. exists "5570AB"%string, "x"%string. split; [reflexivity|]. split; vm_compute; reflexivity.
Defined.

(** ** C3: repeated strategies *)

(** C3 (counterexample). For an email-shaped identifier whose picker and
    directory searches both come back empty, one resolution calls the picker
    endpoint twice with the same query. *)
Lemma picker_repeated_counterexample :
  calls (snd (resolveUserIdentifier (env_const (Some []) []) 0
                "nonexistent@example.com" empty_st))
  = [PickerCall "nonexistent@example.com"; SearchCall "nonexistent@example.com";
     PickerCall "nonexistent@example.com"]
  /\ ~ NoDup (calls (snd (resolveUserIdentifier (env_const (Some []) []) 0
                           "nonexistent@example.com" empty_st))).
Proof.
  assert (H : calls (snd (resolveUserIdentifier (env_const (Some []) []) 0
                            "nonexistent@example.com" empty_st))
              = [PickerCall "nonexistent@example.com"; SearchCall "nonexistent@example.com";
                 PickerCall "nonexistent@example.com"]) by (vm_compute; reflexivity).
  split; [exact H|]. rewrite H. intros Hnd.
  apply NoDup_cons_1_1 in Hnd. apply Hnd. set_solver.
Qed.

Lemma resolve_calls env now identifier s :
  (calls (snd (resolveUserIdentifier env now identifier s)) = calls s)
  \/ calls (snd (resolveUserIdentifier env now identifier s))
     = calls s ++ chain_calls env identifier.
Proof.
  unfold resolveUserIdentifier.
  destruct (String.eqb identifier EmptyString); [left; reflexivity|].
  destruct (isAccountId identifier); [left; reflexivity|].
  rewrite resolve_via_cache_eq.
  destruct (cache_get now identifier (cache s)) as [[a|] c'].
  - destruct (String.eqb a EmptyString); [|left; reflexivity].
    right. rewrite resolve_by_search_eq. reflexivity.
  - right. rewrite resolve_by_search_eq. reflexivity.
Qed.

Lemma chain_calls_repeat_cause env identifier :
  NoDup (chain_calls env identifier)
  \/ (isEmail identifier = true
      /\ no_results (picker_result env identifier) = true
      /\ no_results (search_result env identifier) = true
      /\ chain_calls env identifier
         = [PickerCall identifier; SearchCall identifier; PickerCall identifier]).
Proof.
  unfold chain_calls, step_b, step_a.
  destruct (isEmail identifier).
  - destruct (no_results (picker_result env identifier)) eqn:Ha;
      [destruct (no_results (search_result env identifier)) eqn:Hb|];
      unfold picker_calls, search_calls; simpl; rewrite ?Ha, ?Hb; simpl;
      destruct (getAtlassianCredentials env); simpl;
      first [ right; repeat split; assumption
            | left; repeat constructor; set_solver ].
  - simpl. destruct (no_results (search_result env identifier));
      unfold picker_calls, search_calls;
      destruct (getAtlassianCredentials env); simpl;
      left; repeat constructor; set_solver.
Qed.

(** C3 (amended). One resolution never issues the same transport call twice,
    with one exception: for an email-shaped identifier the picker call can be
    repeated as the final fallback, and only when the first picker search
    and the directory search both yielded no candidates; the calls are then
    picker, directory, picker, all with the identifier as query. *)
Theorem resolve_no_repeated_strategy env now identifier s :
  exists new,
    calls (snd (resolveUserIdentifier env now identifier s)) = calls s ++ new
    /\ (NoDup new
        \/ (isEmail identifier = true
            /\ no_results (picker_result env identifier) = true
            /\ no_results (search_result env identifier) = true
            /\ new = [PickerCall identifier; SearchCall identifier; PickerCall identifier])).
Proof.
  destruct (resolve_calls env now identifier s) as [H|H].
  - exists []. rewrite app_nil_r. split; [exact H|]. left. constructor.
  - exists (chain_calls env identifier). split; [exact H|]. apply chain_calls_repeat_cause.
Qed.

(** ** C4: what a null strategy result means *)

(** C4 (counterexample). A successful picker response without a [users]
    section makes [searchUsersWithPicker] return [null] although neither the
    transport nor the credentials failed. *)
Lemma picker_null_on_success_counterexample :
  ~ (forall env q s,
       fst (searchUsersWithPicker env q s) = Ok None ->
       getAtlassianCredentials env = None \/ exists e, picker_endpoint env q = Err e).
Proof.
  intros H.
  destruct (H (env_const None []) "John Doe" empty_st) as [Hc | [e He]].
  - reflexivity.
  - discriminate.
  - discriminate.
Qed.

(** C4 (amended). A [null] from a strategy does not mean a transport or
    authentication failure. What holds: without credentials both strategies
    return [null] and call nothing; once the transport call has been made,
    [searchUsers] returns the endpoint's (possibly empty) list when the call
    succeeds and [null] when it throws, and [searchUsersWithPicker] returns
    the (possibly empty) [users.users] list when the successful response
    carries one, and [null] when the response has no users list or the call
    throws. *)
Theorem strategy_null_meaning env q s :
  (getAtlassianCredentials env = None ->
   searchUsers env q s = (Ok None, s) /\ searchUsersWithPicker env q s = (Ok None, s))
  /\ (calls (snd (searchUsers env q s)) = calls s ++ [SearchCall q] ->
      fst (searchUsers env q s)
      = Ok (match search_endpoint env q with
            | Ok users => Some users
            | Err _ => None
            end))
  /\ (calls (snd (searchUsersWithPicker env q s)) = calls s ++ [PickerCall q] ->
      fst (searchUsersWithPicker env q s)
      = Ok (match picker_endpoint env q with
            | Ok (Some users) => Some users
            | _ => None
            end)).
Proof.
  rewrite searchUsers_eq, searchUsersWithPicker_eq.
  unfold search_result, picker_result, search_calls, picker_calls.
  destruct s as [c l]. simpl.
  destruct (getAtlassianCredentials env) as [cr|].
  - split; [discriminate|]. split; intros _.
    + destruct (search_endpoint env q); reflexivity.
    + destruct (picker_endpoint env q) as [[users|]|e]; reflexivity.
  - split; [intros _; rewrite !app_nil_r; split; reflexivity|].
    split; intros H; exfalso; rewrite app_nil_r in H;
      apply (f_equal (@length Call)) in H; rewrite length_app in H; simpl in H; lia.
Qed.

Lemma strategy_null_meaning_witness :
  fst (searchUsersWithPicker (env_const None []) "John Doe" empty_st) = Ok None
  /\ fst (searchUsers (env_const None []) "John Doe" empty_st) = Ok (Some []).
Proof.
  destruct (strategy_null_meaning (env_const None []) "John Doe" empty_st)
    as (_ & Hs & Hp).
  split.
  - apply Hp. reflexivity.
  - apply Hs. reflexivity.
Defined.

(** ** C5: the order of the strategies *)

Lemma resolve_cache_miss env now identifier s c' :
  identifier <> EmptyString -> isAccountId identifier = false ->
  cache_get now identifier (cache s) = (None, c') ->
  resolveUserIdentifier env now identifier s
  = resolve_by_search env now identifier (mkSt c' (calls s)).
Proof.
  intros Hne Hacc Hget. unfold resolveUserIdentifier.
  destruct (String.eqb_spec identifier EmptyString) as [E|_]; [contradiction|].
  rewrite Hacc, resolve_via_cache_eq, Hget. reflexivity.
Qed.

(** C5. With credentials configured, for a non-empty identifier that is
    not an account id and misses the cache, the transport calls are: the
    picker search if the identifier is email-shaped; then the directory
    search if that did not yield candidates; then the picker search again
    if the directory search did not yield candidates either. The resolution
    settles on the first non-empty candidate list ([step_a], [step_b],
    [chain_result]). In particular, for a non-email identifier whose
    directory search fails and whose final picker search returns [users],
    the account id is chosen from [users]. *)
Theorem resolve_strategy_order env now identifier s c' cr :
  getAtlassianCredentials env = Some cr ->
  identifier <> EmptyString -> isAccountId identifier = false ->
  cache_get now identifier (cache s) = (None, c') ->
  calls (snd (resolveUserIdentifier env now identifier s))
  = calls s
    ++ (if isEmail identifier then [PickerCall identifier] else [])
    ++ (if no_results (step_a env identifier)
        then SearchCall identifier
             :: (if no_results (step_b env identifier)
                 then [PickerCall identifier] else [])
        else [])
  /\ fst (resolveUserIdentifier env now identifier s)
     = Ok (found_in identifier (chain_result env identifier))
  /\ (forall e users,
        isEmail identifier = false -> search_endpoint env identifier = Err e ->
        picker_endpoint env identifier = Ok (Some users) ->
        fst (resolveUserIdentifier env now identifier s)
        = Ok (found_in identifier (Some users))).
Proof.
  intros Hcr Hne Hacc Hget.
  rewrite (resolve_cache_miss env now identifier s c' Hne Hacc Hget),
    resolve_by_search_eq. simpl.
  unfold chain_calls, picker_calls, search_calls. rewrite Hcr.
  split; [reflexivity|]. split; [reflexivity|].
  intros e users Hem Herr Hok. unfold chain_found, chain_result, step_b, step_a.
  rewrite Hem. simpl. unfold search_result, picker_result.
  rewrite Hcr, Herr, Hok. reflexivity.
Qed.

Lemma resolve_strategy_order_witness :
  calls (snd (resolveUserIdentifier env_directory_denied 0 "John Doe" empty_st))
  = [SearchCall "John Doe"; PickerCall "John Doe"]
  /\ fst (resolveUserIdentifier env_directory_denied 0 "John Doe" empty_st)
     = Ok (Some "557058:user-id-123").
Proof.
  destruct (resolve_strategy_order env_directory_denied 0 "John Doe" empty_st ∅
              test_credentials) as (Hcalls & _ & Hfb).
  - reflexivity.
  - discriminate.
  - vm_compute. reflexivity.
  - vm_compute. reflexivity.
  - split.
    + rewrite Hcalls. vm_compute. reflexivity.
    + rewrite (Hfb (HttpError 403 "Forbidden") [john]); try reflexivity.
Defined.

(** ** C8: disambiguation *)

Lemma find_first {A} (f : A -> bool) (l : list A) x :
  List.find f l = Some x ->
  exists pre post, l = pre ++ x :: post /\ f x = true
                   /\ Forall (fun y => f y = false) pre.
Proof.
  induction l as [|y l IH]; simpl; [discriminate|].
  destruct (f y) eqn:Hy.
  - intros [= <-]. exists [], l. auto.
  - intros H. destruct (IH H) as (pre & post & -> & Hx & Hpre).
    exists (y :: pre), post. auto.
Qed.

Lemma find_none_all_false {A} (f : A -> bool) (l : list A) :
  List.find f l = None -> forall y, In y l -> f y = false.
Proof.
  induction l as [|y l IH]; simpl; [tauto|].
  destruct (f y) eqn:Hy; [discriminate|].
  intros H z [<-|Hz]; auto.
Qed.

(** C8. When the first non-empty candidate list is [u0 :: rest], the
    resolver answers with the account id of [choose_user]: the first
    record, in the vendor's order, whose email, login name or display name
    equals the identifier ignoring case, if there is one; otherwise [u0]. *)
Theorem choose_user_exact_match_or_first identifier u0 rest :
  (forall env now s,
     chain_result env identifier = Some (u0 :: rest) ->
     fst (resolve_by_search env now identifier s)
     = Ok (let user := choose_user identifier u0 rest in
           if String.eqb (accountId user) EmptyString then None
           else Some (accountId user)))
  /\ ((exists u, In u (u0 :: rest) /\ exact_match identifier u = true) ->
      exists pre post,
        u0 :: rest = pre ++ choose_user identifier u0 rest :: post
        /\ exact_match identifier (choose_user identifier u0 rest) = true
        /\ Forall (fun u => exact_match identifier u = false) pre)
  /\ ((forall u, In u (u0 :: rest) -> exact_match identifier u = false) ->
      choose_user identifier u0 rest = u0).
Proof.
  split; [|split].
  - intros env now s Hc. rewrite resolve_by_search_eq. simpl.
    unfold chain_found. rewrite Hc. reflexivity.
  - intros (u & Hin & Hu). unfold choose_user.
    destruct (List.find (exact_match identifier) (u0 :: rest)) as [x|] eqn:E.
    + apply find_first in E. exact E.
    + exfalso. rewrite (find_none_all_false _ _ E u Hin) in Hu. discriminate.
  - intros Hnone. unfold choose_user.
    destruct (List.find (exact_match identifier) (u0 :: rest)) as [x|] eqn:E; [|reflexivity].
    apply find_first in E as (pre & post & Heq & Hx & _).
    rewrite Hnone in Hx; [discriminate|]. rewrite Heq. apply in_or_app. simpl. auto.
Qed.

(** ** The cache *)

Lemma lower_char_idem c : lower_char (lower_char c) = lower_char c.
Proof.
  destruct c as [[] [] [] [] [] [] [] []]; vm_compute; reflexivity.
Qed.

Lemma toLowerCase_idem s : toLowerCase (toLowerCase s) = toLowerCase s.
Proof. induction s as [|c s IH]; simpl; [reflexivity|]. rewrite lower_char_idem, IH. reflexivity. Qed.

Lemma cache_get_cases now identifier (c : gmap string CacheEntry) :
  (c !! toLowerCase identifier = None /\ cache_get now identifier c = (None, c))
  \/ (exists e, c !! toLowerCase identifier = Some e /\ now - timestamp e < TTL
               /\ cache_get now identifier c = (Some (entry_accountId e), c))
  \/ (exists e, c !! toLowerCase identifier = Some e /\ TTL <= now - timestamp e
               /\ cache_get now identifier c
                  = (None, delete (toLowerCase identifier) c)).
Proof.
  unfold cache_get. destruct (c !! toLowerCase identifier) as [e|] eqn:E.
  - destruct (Z.ltb_spec (now - timestamp e) TTL); right; [left|right]; eauto.
  - left. auto.
Qed.

(** C7. [UserCache.get] reads the lower-cased key; an entry younger than the
    TTL is returned and kept, an entry of age [>= TTL] is deleted and
    reported absent, and a missing entry is reported absent. *)
Theorem cache_get_ttl now identifier (c : gmap string CacheEntry) :
  cache_get now identifier c = cache_get now (toLowerCase identifier) c
  /\ (forall e, c !! toLowerCase identifier = Some e -> now - timestamp e < TTL ->
        cache_get now identifier c = (Some (entry_accountId e), c))
  /\ (forall e, c !! toLowerCase identifier = Some e -> TTL <= now - timestamp e ->
        cache_get now identifier c = (None, delete (toLowerCase identifier) c))
  /\ (c !! toLowerCase identifier = None -> cache_get now identifier c = (None, c))
  /\ TTL = 3600000.
Proof.
  split; [unfold cache_get; rewrite toLowerCase_idem; reflexivity|].
  repeat split.
  - intros e He Hlt. unfold cache_get. rewrite He.
    apply Z.ltb_lt in Hlt. rewrite Hlt. reflexivity.
  - intros e He Hge. unfold cache_get. rewrite He.
    destruct (Z.ltb_spec (now - timestamp e) TTL); [lia|reflexivity].
  - intros He. unfold cache_get. rewrite He. reflexivity.
Qed.

Lemma cache_get_ttl_witness :
  cache_get TTL "Nobody@Example.com" (cache st_expired)
  = (None, delete "nobody@example.com" (cache st_expired))
  /\ cache_get (TTL - 1) "Nobody@Example.com" (cache st_expired)
     = (Some "557058:old-user", cache st_expired).
Proof.
  destruct (cache_get_ttl TTL "Nobody@Example.com" (cache st_expired))
    as (_ & _ & Hexp & _).
  destruct (cache_get_ttl (TTL - 1) "Nobody@Example.com" (cache st_expired))
    as (_ & Hfresh & _).
  split.
  - apply (Hexp (mkEntry "557058:old-user" 0)); [vm_compute; reflexivity|].
    vm_compute. discriminate.
  - apply (Hfresh (mkEntry "557058:old-user" 0)); [vm_compute; reflexivity|].
    vm_compute. reflexivity.
Defined.

(** ** C6: when a resolution writes to the cache *)

Lemma found_in_nonempty identifier users a :
  found_in identifier users = Some a -> a <> EmptyString.
Proof.
  unfold found_in. destruct users as [[|u0 rest]|]; try discriminate.
  destruct (String.eqb_spec (accountId (choose_user identifier u0 rest)) EmptyString);
    [discriminate|]. intros [= <-]. assumption.
Qed.

Lemma no_results_chain env identifier :
  no_results (picker_result env identifier) = true ->
  no_results (search_result env identifier) = true ->
  chain_found env identifier = None.
Proof.
  intros Hp Hs. unfold chain_found, chain_result, step_b, step_a.
  assert (Ha : no_results (if isEmail identifier then picker_result env identifier
                           else None) = true)
    by (destruct (isEmail identifier); auto).
  rewrite Ha, Hs. unfold found_in.
  destruct (picker_result env identifier) as [[|u0 rest]|]; try reflexivity.
  discriminate.
Qed.

Lemma resolve_by_search_outcome env now identifier c0 c l :
  (c = c0 \/ exists e, c0 !! toLowerCase identifier = Some e
                       /\ TTL <= now - timestamp e
                       /\ c = delete (toLowerCase identifier) c0) ->
  cache_outcome now identifier c0
    (cache (snd (resolve_by_search env now identifier (mkSt c l))))
    (fst (resolve_by_search env now identifier (mkSt c l))).
Proof.
  intros Hc. rewrite resolve_by_search_eq. simpl.
  destruct (chain_found env identifier) as [a|] eqn:E.
  - right; right. exists a. split; [reflexivity|].
    split; [exact (found_in_nonempty _ _ _ E)|].
    unfold cache_set. destruct Hc as [->|(e & _ & _ & ->)]; [reflexivity|].
    apply insert_delete_eq.
  - destruct Hc as [->|He]; [left; reflexivity|]. right; left. exact He.
Qed.

(** C6 (amended). A resolution adds or overwrites a cache entry only when
    it returns a non-empty account id [a], and then the entry is [a] under
    the identifier's lower-cased key, stamped now. Otherwise the cache is
    left as it was, except that the cache read purges an expired entry
    under that key. When the identifier reaches the strategies and they all
    return empty lists or [null], the result is absent and the cache is
    exactly what the cache read left. *)
Theorem resolve_cache_write_only_when_found env now identifier s :
  cache_outcome now identifier (cache s)
    (cache (snd (resolveUserIdentifier env now identifier s)))
    (fst (resolveUserIdentifier env now identifier s))
  /\ (identifier <> EmptyString -> isAccountId identifier = false ->
      fst (cache_get now identifier (cache s)) = None ->
      no_results (picker_result env identifier) = true ->
      no_results (search_result env identifier) = true ->
      fst (resolveUserIdentifier env now identifier s) = Ok None
      /\ cache (snd (resolveUserIdentifier env now identifier s))
         = snd (cache_get now identifier (cache s))).
Proof.
  split.
  - unfold resolveUserIdentifier.
    destruct (String.eqb identifier EmptyString); [left; reflexivity|].
    destruct (isAccountId identifier); [left; reflexivity|].
    rewrite resolve_via_cache_eq.
    destruct (cache_get_cases now identifier (cache s))
      as [(_ & ->) | [(e & He & Hlt & ->) | (e & He & Hge & ->)]].
    + apply resolve_by_search_outcome. left. reflexivity.
    + destruct (String.eqb (entry_accountId e) EmptyString);
        [|left; reflexivity].
      apply resolve_by_search_outcome. left. reflexivity.
    + apply resolve_by_search_outcome. right. eauto.
  - intros Hne Hacc Hget Hp Hs.
    destruct (cache_get now identifier (cache s)) as [r c'] eqn:E.
    simpl in Hget. subst r.
    rewrite (resolve_cache_miss env now identifier s c' Hne Hacc E),
      resolve_by_search_eq, (no_results_chain env identifier Hp Hs).
    split; reflexivity.
Qed.

(** C6 (counterexample). A not-found resolution of an identifier whose
    cache entry has expired does change the cache: the read purges it. *)
Lemma not_found_purges_expired_counterexample :
  fst (resolveUserIdentifier (env_const (Some []) []) TTL "nobody@example.com" st_expired)
  = Ok None
  /\ cache (snd (resolveUserIdentifier (env_const (Some []) []) TTL
                  "nobody@example.com" st_expired)) <> cache st_expired.
Proof.
  split; [vm_compute; reflexivity|].
  intros H. assert (Hl := f_equal (lookup "nobody@example.com") H).
  vm_compute in Hl. discriminate.
Qed.

(** ** C9: a second resolution within the TTL *)

Lemma resolve_non_account env now identifier s :
  identifier <> EmptyString -> isAccountId identifier = false ->
  resolveUserIdentifier env now identifier s = resolve_via_cache env now identifier s.
Proof.
  intros Hne Hacc. unfold resolveUserIdentifier.
  destruct (String.eqb_spec identifier EmptyString); [contradiction|].
  rewrite Hacc. reflexivity.
Qed.

Lemma resolve_by_search_found env now identifier c l a :
  fst (resolve_by_search env now identifier (mkSt c l)) = Ok (Some a) ->
  snd (resolve_by_search env now identifier (mkSt c l))
  = mkSt (cache_set now identifier a c) (l ++ chain_calls env identifier)
  /\ a <> EmptyString.
Proof.
  rewrite resolve_by_search_eq. simpl. intros [= E]. rewrite E.
  split; [reflexivity|]. exact (found_in_nonempty _ _ _ E).
Qed.

Lemma chain_calls_length env identifier : (length (chain_calls env identifier) <= 3)%nat.
Proof.
  unfold chain_calls, picker_calls, search_calls.
  destruct (getAtlassianCredentials env); destruct (isEmail identifier);
    destruct (no_results (step_a env identifier));
    destruct (no_results (step_b env identifier)); simpl; lia.
Qed.

Lemma second_call_hits env t1 t2 identifier a c l :
  identifier <> EmptyString -> isAccountId identifier = false ->
  a <> EmptyString -> t2 - t1 < TTL ->
  resolveUserIdentifier env t2 identifier (mkSt (cache_set t1 identifier a c) l)
  = (Ok (Some a), mkSt (cache_set t1 identifier a c) l).
Proof.
  intros Hne Hacc Ha Ht.
  rewrite resolve_non_account, resolve_via_cache_eq by assumption. simpl.
  unfold cache_get, cache_set. rewrite lookup_insert_eq. simpl.
  apply Z.ltb_lt in Ht. rewrite Ht.
  destruct (String.eqb_spec a EmptyString); [contradiction|reflexivity].
Qed.

(** C9 (amended). If a resolution at time [t1] goes to the transport and
    returns an account id [a], a second resolution of the same identifier
    at any [t2] with [t2 - t1 < TTL] returns [a] from the cache, with no
    transport call and no change of state, whatever the transport would
    answer. The first resolution issued one to three transport calls. *)
Theorem resolve_twice_second_is_cache_hit env env' t1 t2 identifier s a :
  fst (resolveUserIdentifier env t1 identifier s) = Ok (Some a) ->
  calls (snd (resolveUserIdentifier env t1 identifier s)) <> calls s ->
  t2 - t1 < TTL ->
  resolveUserIdentifier env' t2 identifier (snd (resolveUserIdentifier env t1 identifier s))
  = (Ok (Some a), snd (resolveUserIdentifier env t1 identifier s))
  /\ exists new, calls (snd (resolveUserIdentifier env t1 identifier s)) = calls s ++ new
                 /\ (1 <= length new <= 3)%nat.
Proof.
  intros Hfound Hcalls Ht.
  assert (Hne : identifier <> EmptyString).
  { intros ->. discriminate Hfound. }
  assert (Hacc : isAccountId identifier = false).
  { destruct (isAccountId identifier) eqn:E; [|reflexivity].
    exfalso. apply Hcalls. unfold resolveUserIdentifier.
    destruct (String.eqb_spec identifier EmptyString); [contradiction|].
    rewrite E. reflexivity. }
  rewrite (resolve_non_account env t1 identifier s Hne Hacc),
    (resolve_via_cache_eq env t1 identifier s) in Hfound, Hcalls |- *.
  destruct s as [c0 l]. simpl in *.
  assert (Hsearch : forall c,
    fst (resolve_by_search env t1 identifier (mkSt c l)) = Ok (Some a) ->
    calls (snd (resolve_by_search env t1 identifier (mkSt c l))) <> l ->
    resolveUserIdentifier env' t2 identifier
      (snd (resolve_by_search env t1 identifier (mkSt c l)))
    = (Ok (Some a), snd (resolve_by_search env t1 identifier (mkSt c l)))
    /\ exists new, calls (snd (resolve_by_search env t1 identifier (mkSt c l))) = l ++ new
                   /\ (1 <= length new <= 3)%nat).
  { intros c Hf Hc. destruct (resolve_by_search_found env t1 identifier c l a Hf) as [Hs Ha].
    rewrite Hs in Hc |- *. simpl in Hc.
    split; [apply second_call_hits; assumption|].
    exists (chain_calls env identifier). split; [reflexivity|].
    split; [|apply chain_calls_length].
    destruct (chain_calls env identifier); [|simpl; lia].
    rewrite app_nil_r in Hc. contradiction. }
  destruct (cache_get t1 identifier c0) as [[a'|] c'].
  - destruct (String.eqb a' EmptyString); [apply Hsearch; assumption|].
    exfalso. apply Hcalls. reflexivity.
  - apply Hsearch; assumption.
Qed.

Lemma resolve_twice_second_is_cache_hit_witness :
  resolveUserIdentifier env_no_credentials 1 "cached@example.com"
    (snd (resolveUserIdentifier env_directory_hit 0 "cached@example.com" empty_st))
  = (Ok (Some "557058:cached-user"),
     snd (resolveUserIdentifier env_directory_hit 0 "cached@example.com" empty_st)).
Proof.
  apply (resolve_twice_second_is_cache_hit env_directory_hit env_no_credentials 0 1
           "cached@example.com" empty_st "557058:cached-user").
  - vm_compute. reflexivity.
  - vm_compute. discriminate.
  - vm_compute. reflexivity.
Defined.

(** C9 (counterexample). Resolving ["cached@example.com"] twice, when the
    picker finds nobody and the directory search finds the user, returns
    the same id both times but invokes the transport twice in total (both
    on the first call), not once. *)
Lemma two_transport_calls_counterexample :
  let s1 := snd (resolveUserIdentifier env_directory_hit 0 "cached@example.com" empty_st) in
  fst (resolveUserIdentifier env_directory_hit 0 "cached@example.com" empty_st)
  = Ok (Some "557058:cached-user")
  /\ fst (resolveUserIdentifier env_directory_hit 1 "cached@example.com" s1)
     = Ok (Some "557058:cached-user")
  /\ length (calls (snd (resolveUserIdentifier env_directory_hit 1 "cached@example.com" s1)))
     = 2%nat.
Proof. vm_compute. auto. Qed.

(** * Further properties of the users service *)

Lemma chain_calls_queries env identifier :
  Forall (fun c => c = PickerCall identifier \/ c = SearchCall identifier)
         (chain_calls env identifier).
Proof.
  unfold chain_calls, picker_calls, search_calls.
  destruct (getAtlassianCredentials env); destruct (isEmail identifier);
    destruct (no_results (step_a env identifier));
    destruct (no_results (step_b env identifier)); simpl;
    repeat (econstructor; [auto|]); constructor.
Qed.

(** X1. [resolveUserIdentifier] never throws: whatever the credentials, the
    endpoints and the cache, it returns an account id or [null]. *)
Theorem resolve_never_throws env now identifier s :
  exists r, fst (resolveUserIdentifier env now identifier s) = Ok r.
Proof.
  unfold resolveUserIdentifier.
  destruct (String.eqb identifier EmptyString); [eexists; reflexivity|].
  destruct (isAccountId identifier); [eexists; reflexivity|].
  rewrite resolve_via_cache_eq.
  destruct (cache_get now identifier (cache s)) as [[a|] c'].
  - destruct (String.eqb a EmptyString); [|eexists; reflexivity].
    rewrite resolve_by_search_eq. eexists; reflexivity.
  - rewrite resolve_by_search_eq. eexists; reflexivity.
Qed.

(** X2. One resolution issues at most three transport calls, and each is a
    picker or directory search whose query is the identifier itself. *)
Theorem resolve_transport_calls_bounded env now identifier s :
  exists new,
    calls (snd (resolveUserIdentifier env now identifier s)) = calls s ++ new
    /\ (length new <= 3)%nat
    /\ Forall (fun c => c = PickerCall identifier \/ c = SearchCall identifier) new.
Proof.
  destruct (resolve_calls env now identifier s) as [H|H].
  - exists []. rewrite app_nil_r. split; [exact H|]. split; [simpl; lia|constructor].
  - exists (chain_calls env identifier).
    split; [exact H|]. split; [apply chain_calls_length|apply chain_calls_queries].
Qed.

Lemma choose_user_in identifier u0 rest :
  In (choose_user identifier u0 rest) (u0 :: rest).
Proof.
  unfold choose_user.
  destruct (List.find (exact_match identifier) (u0 :: rest)) as [x|] eqn:E.
  - apply find_first in E as (pre & post & Heq & _). rewrite Heq.
    apply in_or_app. simpl. auto.
  - simpl. auto.
Qed.

Lemma chain_result_source env identifier :
  chain_result env identifier = picker_result env identifier
  \/ chain_result env identifier = search_result env identifier
  \/ chain_result env identifier = None.
Proof.
  unfold chain_result, step_b, step_a.
  destruct (isEmail identifier).
  - destruct (no_results (picker_result env identifier)) eqn:Ha; simpl.
    + destruct (no_results (search_result env identifier)); auto.
    + rewrite Ha. auto.
  - simpl. destruct (no_results (search_result env identifier)); auto.
Qed.

Lemma chain_found_source env identifier a :
  chain_found env identifier = Some a ->
  a <> EmptyString
  /\ exists users u, (picker_result env identifier = Some users
                      \/ search_result env identifier = Some users)
                     /\ In u users /\ accountId u = a.
Proof.
  unfold chain_found. intros E.
  split; [exact (found_in_nonempty _ _ _ E)|].
  unfold found_in in E.
  destruct (chain_result env identifier) as [[|u0 rest]|] eqn:Hc; try discriminate.
  destruct (String.eqb _ _); [discriminate|]. injection E as <-.
  exists (u0 :: rest), (choose_user identifier u0 rest).
  split; [|split; [apply choose_user_in|reflexivity]].
  destruct (chain_result_source env identifier) as [H|[H|H]]; rewrite H in Hc; auto.
  discriminate.
Qed.

(** X3. The resolver never invents an account id: a returned id is non-empty
    and is either the identifier itself (when it is account-id shaped), or
    the id stored in the cache under the identifier's lower-cased key, or
    the [accountId] of a record one of the searches returned. *)
Theorem resolve_result_provenance env now identifier s a :
  fst (resolveUserIdentifier env now identifier s) = Ok (Some a) ->
  a <> EmptyString
  /\ ((isAccountId identifier = true /\ a = identifier)
      \/ (exists e, cache s !! toLowerCase identifier = Some e /\ entry_accountId e = a)
      \/ (exists users u, (picker_result env identifier = Some users
                           \/ search_result env identifier = Some users)
                          /\ In u users /\ accountId u = a)).
Proof.
  unfold resolveUserIdentifier.
  destruct (String.eqb_spec identifier EmptyString) as [_|Hne]; [discriminate|].
  destruct (isAccountId identifier) eqn:Hacc.
  { intros [= <-]. split; [exact Hne|]. left. auto. }
  rewrite resolve_via_cache_eq.
  destruct (cache_get_cases now identifier (cache s))
    as [(_ & ->) | [(e & He & Hlt & ->) | (e & He & Hge & ->)]].
  - rewrite resolve_by_search_eq. simpl. intros [= E].
    destruct (chain_found_source env identifier a E) as [Ha Hsrc]. auto.
  - destruct (String.eqb_spec (entry_accountId e) EmptyString) as [_|Hnz].
    + rewrite resolve_by_search_eq. simpl. intros [= E].
      destruct (chain_found_source env identifier a E) as [Ha Hsrc]. auto.
    + simpl. intros [= <-]. split; [exact Hnz|]. right; left. eauto.
  - rewrite resolve_by_search_eq. simpl. intros [= E].
    destruct (chain_found_source env identifier a E) as [Ha Hsrc]. auto.
Qed.

Lemma resolve_result_provenance_witness :
  "557058:cached-user"%string <> EmptyString
  /\ ((isAccountId "cached@example.com" = true
       /\ "557058:cached-user"%string = "cached@example.com"%string)
      \/ (exists e, cache empty_st !! toLowerCase "cached@example.com" = Some e
                    /\ entry_accountId e = "557058:cached-user")
      \/ (exists users u, (picker_result env_directory_hit "cached@example.com" = Some users
                           \/ search_result env_directory_hit "cached@example.com" = Some users)
                          /\ In u users /\ accountId u = "557058:cached-user")).
Proof.
  apply (resolve_result_provenance env_directory_hit 0 "cached@example.com" empty_st).
  vm_compute. reflexivity.
Defined.

(** X4. Round trip of [UserCache.set] and [UserCache.get]: after storing
    [a] for [identifier] at time [t], a read of any identifier with the same
    lower-case form at time [now] returns [a] while [now - t < TTL], and
    afterwards returns absent and drops the key: the cache becomes the one
    before the store with that lower-case key deleted. A read of an identifier with a different
    lower-case form sees what it saw before the store. *)
Theorem cache_set_then_get t now identifier identifier' a (c : gmap string CacheEntry) :
  (toLowerCase identifier' = toLowerCase identifier ->
   cache_get now identifier' (cache_set t identifier a c)
   = if now - t <? TTL then (Some a, cache_set t identifier a c)
     else (None, delete (toLowerCase identifier) c))
  /\ (toLowerCase identifier' <> toLowerCase identifier ->
      fst (cache_get now identifier' (cache_set t identifier a c))
      = fst (cache_get now identifier' c)).
Proof.
  unfold cache_get, cache_set. split.
  - intros ->. rewrite lookup_insert_eq. simpl.
    destruct (now - t <? TTL); [reflexivity|]. rewrite delete_insert_eq. reflexivity.
  - intros Hne. rewrite lookup_insert_ne by congruence.
    destruct (c !! toLowerCase identifier') as [e|]; [|reflexivity].
    destruct (now - timestamp e <? TTL); reflexivity.
Qed.

Lemma cache_set_then_get_witness :
  cache_get (TTL - 1) "CACHED@example.com" (cache_set 0 "cached@example.com" "557058:x" ∅)
  = (Some "557058:x"%string, cache_set 0 "cached@example.com" "557058:x" ∅)
  /\ cache_get TTL "CACHED@example.com" (cache_set 0 "cached@example.com" "557058:x" ∅)
     = (None, ∅).
Proof.
  destruct (cache_set_then_get 0 (TTL - 1) "cached@example.com" "CACHED@example.com"
              "557058:x" ∅) as [H1 _].
  destruct (cache_set_then_get 0 TTL "cached@example.com" "CACHED@example.com"
              "557058:x" ∅) as [H2 _].
  split.
  - rewrite H1 by (vm_compute; reflexivity). reflexivity.
  - rewrite H2 by (vm_compute; reflexivity). vm_compute. reflexivity.
Defined.

(** X5. A cache hit changes nothing: for a non-empty identifier that is not
    account-id shaped and has an unexpired, non-empty entry, the resolver
    returns the cached id without any transport call, and the entry keeps
    its original timestamp (reads do not extend the TTL). *)
Theorem resolve_cache_hit_keeps_state env now identifier s e :
  identifier <> EmptyString -> isAccountId identifier = false ->
  cache s !! toLowerCase identifier = Some e -> now - timestamp e < TTL ->
  entry_accountId e <> EmptyString ->
  resolveUserIdentifier env now identifier s = (Ok (Some (entry_accountId e)), s).
Proof.
  intros Hne Hacc He Ht Ha.
  rewrite resolve_non_account, resolve_via_cache_eq by assumption.
  unfold cache_get. rewrite He. apply Z.ltb_lt in Ht. rewrite Ht.
  destruct (String.eqb_spec (entry_accountId e) EmptyString); [contradiction|].
  destruct s. reflexivity.
Qed.

Lemma resolve_cache_hit_keeps_state_witness :
  resolveUserIdentifier env_no_credentials (TTL - 1) "Nobody@Example.com" st_expired
  = (Ok (Some "557058:old-user"%string), st_expired).
Proof.
  apply (resolve_cache_hit_keeps_state env_no_credentials (TTL - 1) "Nobody@Example.com"
           st_expired (mkEntry "557058:old-user" 0)).
  - discriminate.
  - vm_compute. reflexivity.
  - vm_compute. reflexivity.
  - vm_compute. reflexivity.
  - discriminate.
Defined.

Lemma toLowerCase_empty s : toLowerCase s = EmptyString -> s = EmptyString.
Proof. destruct s; [reflexivity|discriminate]. Qed.

Lemma first_resolution_caches env t1 identifier s a :
  fst (resolveUserIdentifier env t1 identifier s) = Ok (Some a) ->
  calls (snd (resolveUserIdentifier env t1 identifier s)) <> calls s ->
  identifier <> EmptyString /\ isAccountId identifier = false /\ a <> EmptyString
  /\ exists c, snd (resolveUserIdentifier env t1 identifier s)
               = mkSt (cache_set t1 identifier a c) (calls s ++ chain_calls env identifier).
Proof.
  intros Hfound Hcalls.
  assert (Hne : identifier <> EmptyString) by (intros ->; discriminate Hfound).
  assert (Hacc : isAccountId identifier = false).
  { destruct (isAccountId identifier) eqn:E; [|reflexivity].
    exfalso. apply Hcalls. unfold resolveUserIdentifier.
    destruct (String.eqb_spec identifier EmptyString); [contradiction|].
    rewrite E. reflexivity. }
  do 2 (split; [assumption|]).
  rewrite (resolve_non_account env t1 identifier s Hne Hacc),
    (resolve_via_cache_eq env t1 identifier s) in Hfound, Hcalls |- *.
  destruct s as [c0 l]. simpl in *.
  assert (Hs : forall c,
    fst (resolve_by_search env t1 identifier (mkSt c l)) = Ok (Some a) ->
    a <> EmptyString /\ exists c',
      snd (resolve_by_search env t1 identifier (mkSt c l))
      = mkSt (cache_set t1 identifier a c') (l ++ chain_calls env identifier)).
  { intros c Hf. destruct (resolve_by_search_found env t1 identifier c l a Hf) as [-> Ha].
    eauto. }
  destruct (cache_get t1 identifier c0) as [[a'|] c'].
  - destruct (String.eqb a' EmptyString); [apply Hs; exact Hfound|].
    exfalso. apply Hcalls. reflexivity.
  - apply Hs; exact Hfound.
Qed.

(** X6. Cache keys ignore case: once a resolution of [identifier] at [t1]
    has gone to the transport and returned [a], resolving any
    [identifier'] with the same lower-case form (and not account-id
    shaped) before [t1 + TTL] returns [a] from the cache with no transport
    call and no change of state. *)
Theorem resolve_other_case_hits_cache env env' t1 t2 identifier identifier' s a :
  fst (resolveUserIdentifier env t1 identifier s) = Ok (Some a) ->
  calls (snd (resolveUserIdentifier env t1 identifier s)) <> calls s ->
  t2 - t1 < TTL ->
  toLowerCase identifier' = toLowerCase identifier ->
  isAccountId identifier' = false ->
  resolveUserIdentifier env' t2 identifier' (snd (resolveUserIdentifier env t1 identifier s))
  = (Ok (Some a), snd (resolveUserIdentifier env t1 identifier s)).
Proof.
  intros Hfound Hcalls Ht Hlow Hacc'.
  destruct (first_resolution_caches env t1 identifier s a Hfound Hcalls)
    as (Hne & _ & Ha & c & ->).
  assert (Hne' : identifier' <> EmptyString).
  { intros ->. apply Hne. apply toLowerCase_empty. rewrite <- Hlow. reflexivity. }
  rewrite resolve_non_account, resolve_via_cache_eq by assumption. simpl.
  unfold cache_get, cache_set. rewrite Hlow, lookup_insert_eq. simpl.
  apply Z.ltb_lt in Ht. rewrite Ht.
  destruct (String.eqb_spec a EmptyString); [contradiction|reflexivity].
Qed.

Lemma resolve_other_case_hits_cache_witness :
  resolveUserIdentifier env_no_credentials 1 "Cached@Example.COM"
    (snd (resolveUserIdentifier env_directory_hit 0 "cached@example.com" empty_st))
  = (Ok (Some "557058:cached-user"%string),
     snd (resolveUserIdentifier env_directory_hit 0 "cached@example.com" empty_st)).
Proof.
  apply (resolve_other_case_hits_cache env_directory_hit env_no_credentials 0 1
           "cached@example.com" "Cached@Example.COM" empty_st "557058:cached-user").
  - vm_compute. reflexivity.
  - vm_compute. discriminate.
  - vm_compute. reflexivity.
  - vm_compute. reflexivity.
  - vm_compute. reflexivity.
Defined.

(** X7. [clearUserCache()] forces re-resolution: afterwards, resolving a
    non-empty identifier that is not account-id shaped runs the search
    chain on an empty cache, so no earlier entry can answer; the result is
    what the chain finds, and the cache then holds at most the one entry
    written for this identifier. *)
Theorem clear_forces_search env now identifier s :
  identifier <> EmptyString -> isAccountId identifier = false ->
  resolveUserIdentifier env now identifier (snd (clearUserCache s))
  = resolve_by_search env now identifier (mkSt ∅ (calls s))
  /\ fst (resolveUserIdentifier env now identifier (snd (clearUserCache s)))
     = Ok (chain_found env identifier)
  /\ cache (snd (resolveUserIdentifier env now identifier (snd (clearUserCache s))))
     = match chain_found env identifier with
       | Some a => {[ toLowerCase identifier := mkEntry a now ]}
       | None => ∅
       end.
Proof.
  intros Hne Hacc.
  assert (Hres : resolveUserIdentifier env now identifier (snd (clearUserCache s))
                 = resolve_by_search env now identifier (mkSt ∅ (calls s))).
  { rewrite resolve_non_account, resolve_via_cache_eq by assumption. reflexivity. }
  split; [exact Hres|]. rewrite Hres, resolve_by_search_eq. simpl.
  split; [reflexivity|].
  destruct (chain_found env identifier); reflexivity.
Qed.

Lemma clear_forces_search_witness :
  let s := mkSt {[ "cached@example.com" := mkEntry "557058:stale-user" 0 ]} [] in
  resolveUserIdentifier env_directory_hit 5 "cached@example.com" (snd (clearUserCache s))
  = resolve_by_search env_directory_hit 5 "cached@example.com" (mkSt ∅ (calls s))
  /\ fst (resolveUserIdentifier env_directory_hit 5 "cached@example.com" (snd (clearUserCache s)))
     = Ok (Some "557058:cached-user"%string)
  /\ cache (snd (resolveUserIdentifier env_directory_hit 5 "cached@example.com"
                  (snd (clearUserCache s))))
     = {[ "cached@example.com" := mkEntry "557058:cached-user" 5 ]}.
Proof.
  apply (clear_forces_search env_directory_hit 5 "cached@example.com"
           (mkSt {[ "cached@example.com" := mkEntry "557058:stale-user" 0 ]} [])).
  - discriminate.
  - vm_compute. reflexivity.
Defined.

Lemma append_cons c s t : (String c s ++ t)%string = String c (s ++ t)%string.
Proof. reflexivity. Qed.

Lemma not_space_at_not_at c : not_space_at c = true -> c <> "@"%char.
Proof. intros H ->. vm_compute in H. discriminate. Qed.

Lemma split_at_app l b :
  all_chars not_space_at l = true -> split_at (l ++ String "@"%char b)%string = Some (l, b).
Proof.
  induction l as [|c l IH]; simpl; intros H.
  - reflexivity.
  - apply andb_prop in H as [H1 H2].
    case_bool_decide as Hc; [exfalso; exact (not_space_at_not_at c H1 Hc)|].
    rewrite IH by exact H2. reflexivity.
Qed.

Lemma split_at_some s a b : split_at s = Some (a, b) -> s = (a ++ String "@"%char b)%string.
Proof.
  revert a b. induction s as [|c s IH]; simpl; intros a b; [discriminate|].
  case_bool_decide as Hc.
  - intros [= <- <-]. subst c. reflexivity.
  - destruct (split_at s) as [[x y]|] eqn:E; [|discriminate].
    intros [= <- <-]. rewrite append_cons. f_equal. apply IH. reflexivity.
Qed.

Lemma dot_before_end_spec r :
  dot_before_end r = true
  <-> exists x y, r = (x ++ String "."%char y)%string /\ y <> EmptyString.
Proof.
  induction r as [|c r IH]; simpl.
  - split; [discriminate|]. intros (x & y & E & _). destruct x; discriminate.
  - rewrite orb_true_iff, andb_true_iff, IH, bool_decide_eq_true, negb_true_iff.
    split.
    + intros [[-> Hr]|(x & y & -> & Hy)].
      * exists EmptyString, r. split; [reflexivity|]. apply String.eqb_neq. exact Hr.
      * exists (String c x), y. split; [reflexivity|exact Hy].
    + intros ([|c' x] & y & E & Hy); simpl in E; injection E as -> ->.
      * left. split; [reflexivity|]. apply String.eqb_neq. exact Hy.
      * right. exists x, y. split; [reflexivity|exact Hy].
Qed.

(** X8. [isEmail] accepts exactly the strings of the regular expression
    [/^[^\s@]+@[^\s@]+\.[^\s@]+$/]: a non-empty local part, an [@], a
    non-empty first domain part, a dot and a non-empty last part, with no
    part containing white space or [@] (the first domain part may itself
    contain dots, as the regex backtracks to the last dot it can use). *)
Theorem isEmail_regex s :
  isEmail s = true
  <-> exists l d1 d2,
      s = (l ++ String "@"%char (d1 ++ String "."%char d2))%string
      /\ l <> EmptyString /\ d1 <> EmptyString /\ d2 <> EmptyString
      /\ all_chars not_space_at l = true /\ all_chars not_space_at d1 = true
      /\ all_chars not_space_at d2 = true.
Proof.
  unfold isEmail. split.
  - destruct (split_at s) as [[l dom]|] eqn:Hs; [|discriminate].
    apply split_at_some in Hs. subst s. intros H.
    rewrite !andb_true_iff in H. destruct H as (((Hl & Hal) & Had) & Hd).
    destruct dom as [|c rest]; [discriminate|].
    apply dot_before_end_spec in Hd as (x & y & -> & Hy).
    cbn [all_chars] in Had. apply andb_true_iff in Had as [Hc Had].
    rewrite all_chars_app in Had. apply andb_true_iff in Had as [Hx Had].
    cbn [all_chars] in Had. apply andb_true_iff in Had as [_ Hy'].
    rewrite negb_true_iff in Hl. apply String.eqb_neq in Hl.
    exists l, (String c x), y.
    repeat split; try assumption; try discriminate.
    cbn [all_chars]. rewrite Hc, Hx. reflexivity.
  - intros (l & d1 & d2 & -> & Hl & H1 & H2 & Hal & Ha1 & Ha2).
    rewrite split_at_app by exact Hal.
    destruct (String.eqb_spec l EmptyString) as [|_]; [contradiction|].
    rewrite Hal, all_chars_app. simpl.
    change (not_space_at "."%char) with true.
    rewrite Ha1, Ha2. simpl.
    destruct d1 as [|c x]; [contradiction|]. rewrite append_cons.
    apply dot_before_end_spec. exists x, d2. split; [reflexivity|exact H2].
Qed.

(** * Further properties of the transitions controller and tools *)

Lemma controller_transitionIssue_unfold ienv args l :
  controller_transitionIssue ienv args l
  = let key := issueIdOrKey args in
    let params := mkTransitionParams (transitionId args) (fields args) (update args) in
    let l1 := l ++ [TransitionIssueCall key params] in
    match transitionIssue_answer ienv key params with
    | SErr e => (SErr e, l1)
    | SOk _ =>
        let c := match comment args with Some c => c | None => EmptyString end in
        match (if truthy (comment args)
               then (error_of (addComment_answer ienv key c), l1 ++ [AddCommentCall key c])
               else (None, l1)) with
        | (Some e, l2) => (SErr e, l2)
        | (None, l2) =>
            match get_answer ienv key ["status"; "summary"] with
            | SOk issue => (SOk (formatTransitionResult key (transitionId args) issue),
                            l2 ++ [GetIssueCall key ["status"; "summary"]])
            | SErr e => (SErr e, l2 ++ [GetIssueCall key ["status"; "summary"]])
            end
        end
    end.
Proof.
  unfold controller_transitionIssue, cbind, service_call, cret. simpl.
  destruct (transitionIssue_answer ienv _ _); [|reflexivity].
  destruct (truthy (comment args)); [|reflexivity].
  destruct (addComment_answer ienv _ _); reflexivity.
Qed.

Lemma controller_transitionIssue_success_step ienv args l content l' :
  controller_transitionIssue ienv args l = (SOk content, l') ->
  l' = l ++ transitionIssue_calls args
  /\ Forall (fun c => call_error ienv c = None) (transitionIssue_calls args)
  /\ exists issue, get_answer ienv (issueIdOrKey args) ["status"; "summary"] = SOk issue
     /\ content = formatTransitionResult (issueIdOrKey args) (transitionId args) issue.
Proof.
  rewrite controller_transitionIssue_unfold. unfold transitionIssue_calls. cbv zeta.
  destruct (transitionIssue_answer ienv _ _) as [u|e] eqn:Ht; [|discriminate].
  destruct (truthy (comment args)).
  - destruct (addComment_answer ienv _ _) as [v|e] eqn:Ha; simpl; [|discriminate].
    destruct (get_answer ienv _ _) as [issue|e] eqn:Hg; [|discriminate].
    intros [= <- <-]. split; [rewrite <- !app_assoc; reflexivity|]. split; [|eauto].
    repeat (constructor; [simpl; rewrite ?Ht, ?Ha, ?Hg; reflexivity|]); constructor.
  - destruct (get_answer ienv _ _) as [issue|e] eqn:Hg; [|discriminate].
    intros [= <- <-]. split; [rewrite <- !app_assoc; reflexivity|]. split; [|eauto].
    repeat (constructor; [simpl; rewrite ?Ht, ?Hg; reflexivity|]); constructor.
Qed.

(** X9. A successful [transitionIssue] made exactly the calls
    [transitionIssue], [addComment] (only for a non-empty comment) and
    [get(key, { fields: ['status', 'summary'] })], in that order, none of
    them failed, and the result is [formatTransitionResult] of the issue
    [get] returned. *)
Theorem controller_transitionIssue_success ienv args l content l' :
  controller_transitionIssue ienv args l = (SOk content, l') ->
  l' = l ++ transitionIssue_calls args
  /\ Forall (fun c => call_error ienv c = None) (transitionIssue_calls args)
  /\ exists issue, get_answer ienv (issueIdOrKey args) ["status"; "summary"] = SOk issue
     /\ content = formatTransitionResult (issueIdOrKey args) (transitionId args) issue.
Proof. exact (controller_transitionIssue_success_step ienv args l content l'). Qed.

Lemma controller_transitionIssue_success_witness :
  controller_transitionIssue ienv_ok args_with_comment []
  = (SOk (formatTransitionResult "TEST-123" "21"
            (mkIssue "TEST-123" "Test Issue" (Some "In Progress"))),
     transitionIssue_calls args_with_comment)
  /\ [] ++ transitionIssue_calls args_with_comment = transitionIssue_calls args_with_comment.
Proof.
  assert (H : controller_transitionIssue ienv_ok args_with_comment []
              = (SOk (formatTransitionResult "TEST-123" "21"
                        (mkIssue "TEST-123" "Test Issue" (Some "In Progress"))),
                 transitionIssue_calls args_with_comment)) by reflexivity.
  split; [exact H|].
  exact (proj1 (controller_transitionIssue_success ienv_ok args_with_comment [] _ _ H)).
Defined.

Lemma controller_transitionIssue_error_step ienv args l e l' :
  controller_transitionIssue ienv args l = (SErr e, l') ->
  exists done failing rest,
    l' = l ++ done ++ [failing]
    /\ done ++ failing :: rest = transitionIssue_calls args
    /\ Forall (fun c => call_error ienv c = None) done
    /\ call_error ienv failing = Some e.
Proof.
  rewrite controller_transitionIssue_unfold. unfold transitionIssue_calls. cbv zeta.
  destruct (transitionIssue_answer ienv _ _) as [u|e'] eqn:Ht.
  2:{ intros [= -> <-]. eexists [], _, _. simpl. split; [reflexivity|].
      split; [reflexivity|]. split; [constructor|]. simpl. rewrite Ht. reflexivity. }
  destruct (truthy (comment args)).
  - destruct (addComment_answer ienv _ _) as [v|e'] eqn:Ha; simpl.
    2:{ intros [= -> <-]. eexists [_], _, _. split; [rewrite <- app_assoc; reflexivity|].
        split; [reflexivity|]. split.
        - constructor; [simpl; rewrite Ht; reflexivity|constructor].
        - simpl. rewrite Ha. reflexivity. }
    destruct (get_answer ienv _ _) as [issue|e'] eqn:Hg; [discriminate|].
    intros [= -> <-]. eexists [_; _], _, []. split; [rewrite <- !app_assoc; reflexivity|].
    split; [reflexivity|]. split.
    + constructor; [simpl; rewrite Ht; reflexivity|].
      constructor; [simpl; rewrite Ha; reflexivity|constructor].
    + simpl. rewrite Hg. reflexivity.
  - destruct (get_answer ienv _ _) as [issue|e'] eqn:Hg; [discriminate|].
    intros [= -> <-]. eexists [_], _, []. split; [rewrite <- !app_assoc; reflexivity|].
    split; [reflexivity|]. split.
    + constructor; [simpl; rewrite Ht; reflexivity|constructor].
    + simpl. rewrite Hg. reflexivity.
Qed.

(** X10. A failing [transitionIssue] stops at the first service call that
    throws and rethrows that error unchanged: the calls it made are a
    prefix of the success sequence, every call before the last one
    succeeded, and the last one threw the error. In particular a failed
    transition is never followed by [addComment] or [get], and a failed
    [addComment] is never followed by [get]. *)
Theorem controller_transitionIssue_error ienv args l e l' :
  controller_transitionIssue ienv args l = (SErr e, l') ->
  exists done failing rest,
    l' = l ++ done ++ [failing]
    /\ done ++ failing :: rest = transitionIssue_calls args
    /\ Forall (fun c => call_error ienv c = None) done
    /\ call_error ienv failing = Some e.
Proof. exact (controller_transitionIssue_error_step ienv args l e l'). Qed.

Lemma controller_transitionIssue_error_witness :
  controller_transitionIssue ienv_comment_fails args_failing_comment []
  = (SErr (mkServiceError "Failed to add comment"),
     [TransitionIssueCall "TEST-999" (mkTransitionParams "21" None None);
      AddCommentCall "TEST-999" "This will fail"])
  /\ exists done failing rest,
       [TransitionIssueCall "TEST-999" (mkTransitionParams "21" None None);
        AddCommentCall "TEST-999" "This will fail"] = [] ++ done ++ [failing]
       /\ done ++ failing :: rest = transitionIssue_calls args_failing_comment
       /\ Forall (fun c => call_error ienv_comment_fails c = None) done
       /\ call_error ienv_comment_fails failing
          = Some (mkServiceError "Failed to add comment").
Proof.
  assert (H : controller_transitionIssue ienv_comment_fails args_failing_comment []
    = (SErr (mkServiceError "Failed to add comment"),
       [TransitionIssueCall "TEST-999" (mkTransitionParams "21" None None);
        AddCommentCall "TEST-999" "This will fail"])) by reflexivity.
  split; [exact H|].
  exact (controller_transitionIssue_error ienv_comment_fails args_failing_comment [] _ _ H).
Defined.

(** X12. The [transitionIssue] tool never fails and adds no service call of
    its own: its result is a single text item with the controller's
    content, or the content [formatErrorForMcpTool] builds for the error
    the controller threw; in every case it made the service calls of
    [transitionIssue_calls] up to the first failing one. *)
Theorem tool_transitionIssue_never_fails ienv fmt args l :
  exists content done,
    tool_transitionIssue ienv fmt args l = (SOk content, l ++ done)
    /\ (exists rest, done ++ rest = transitionIssue_calls args)
    /\ (content = match fst (controller_transitionIssue ienv args l) with
                  | SOk c => [mkText c]
                  | SErr e => fmt e
                  end).
Proof.
  unfold tool_transitionIssue, tool_wrap.
  destruct (controller_transitionIssue ienv args l) as [[c|e] l'] eqn:H.
  - destruct (controller_transitionIssue_success_step ienv args l c l' H) as [-> _].
    exists [mkText c], (transitionIssue_calls args). split; [reflexivity|].
    split; [exists []; apply app_nil_r|reflexivity].
  - destruct (controller_transitionIssue_error_step ienv args l e l' H)
      as (done & failing & rest & -> & Hcalls & _).
    exists (fmt e), (done ++ [failing]). split; [reflexivity|].
    split; [|reflexivity]. exists rest. rewrite <- app_assoc. exact Hcalls.
Qed.

(** * Further properties of the transitions formatter *)

Lemma list_filter_app (f : string -> bool) l1 l2 :
  List.filter f (l1 ++ l2) = List.filter f l1 ++ List.filter f l2.
Proof.
  induction l1 as [|x l1 IH]; simpl; [reflexivity|].
  destruct (f x); simpl; rewrite IH; reflexivity.
Qed.

Lemma prefix_app_long p s t :
  (String.length p <= String.length s)%nat -> String.prefix p (s +:+ t) = String.prefix p s.
Proof.
  revert p. induction s as [|c s IH]; intros [|a p] H.
  - destruct t; reflexivity.
  - simpl in H. lia.
  - rewrite append_cons. reflexivity.
  - rewrite append_cons. simpl. destruct (ascii_dec a c); [|reflexivity].
    apply IH. simpl in H. lia.
Qed.

Lemma is_heading_app lit y :
  (3 <= String.length lit)%nat -> is_heading (lit +:+ y) = is_heading lit.
Proof. intros H. apply (prefix_app_long "## " lit y H). Qed.

Lemma is_field_line_app lit y :
  (4 <= String.length lit)%nat -> is_field_line (lit +:+ y) = is_field_line lit.
Proof. intros H. apply (prefix_app_long "- **" lit y H). Qed.

Lemma is_rule_app lit y :
  (3 <= String.length lit)%nat -> String.prefix "---" lit = false -> is_rule (lit +:+ y) = false.
Proof.
  intros Hl Hp. unfold is_rule.
  destruct (String.eqb_spec (lit +:+ y) "---") as [E|]; [|reflexivity].
  rewrite <- (prefix_app_long "---" lit y Hl), E in Hp. discriminate.
Qed.

Lemma field_line_shape e : exists y, field_line e = "- **" +:+ y.
Proof. destruct e as [fieldId field]. eexists. reflexivity. Qed.

Lemma filter_map_field_line (f : string -> bool) es :
  (forall y, f ("- **" +:+ y) = false) -> List.filter f (map field_line es) = [].
Proof.
  intros Hf. induction es as [|e es IH]; [reflexivity|].
  simpl. destruct (field_line_shape e) as [y ->]. rewrite Hf. exact IH.
Qed.

Lemma filter_map_field_line_keep es :
  List.filter is_field_line (map field_line es) = map field_line es.
Proof.
  induction es as [|e es IH]; [reflexivity|].
  simpl. destruct (field_line_shape e) as [y ->].
  rewrite is_field_line_app by (apply Nat.leb_le; reflexivity). simpl. f_equal. exact IH.
Qed.

Ltac lit_len := apply Nat.leb_le; reflexivity.

Ltac line_class :=
  repeat first
    [ rewrite list_filter_app
    | rewrite is_heading_app by lit_len
    | rewrite is_field_line_app by lit_len
    | rewrite is_rule_app by first [lit_len | reflexivity]
    | progress cbn [List.filter] ].

Lemma headings_transition_lines i t :
  List.filter is_heading (transition_lines i t)
  = ["## " +:+ number_to_string (i + 1)%nat +:+ ". " +:+ transition_name t].
Proof.
  unfold transition_lines.
  destruct (truthy (description (to t))), (statusCategory (to t)),
    (hasScreen t), (transition_fields t) as [[|e es]|]; line_class;
  rewrite ?(filter_map_field_line is_heading)
    by (intro; rewrite is_heading_app by lit_len; reflexivity);
  reflexivity.
Qed.

Lemma headings_blocks i ts :
  List.filter is_heading (transition_blocks i ts)
  = imap (fun j t => "## " +:+ number_to_string (i + j + 1)%nat +:+ ". " +:+ transition_name t) ts.
Proof.
  revert i. induction ts as [|t ts IH]; intros i; [reflexivity|].
  cbn [transition_blocks]. rewrite list_filter_app, headings_transition_lines, IH, imap_cons.
  simpl. rewrite Nat.add_0_r. f_equal.
  apply imap_ext. intros j x _.
  apply (f_equal (fun k => "## " +:+ number_to_string k +:+ ". " +:+ transition_name x)). lia.
Qed.

Lemma rules_transition_lines i t : List.filter is_rule (transition_lines i t) = ["---"].
Proof.
  unfold transition_lines.
  destruct (truthy (description (to t))), (statusCategory (to t)),
    (hasScreen t), (transition_fields t) as [[|e es]|]; line_class;
  rewrite ?(filter_map_field_line is_rule)
    by (intro; rewrite is_rule_app by first [lit_len | reflexivity]; reflexivity);
  reflexivity.
Qed.

Lemma rules_blocks i ts : length (List.filter is_rule (transition_blocks i ts)) = length ts.
Proof.
  revert i. induction ts as [|t ts IH]; intros i; [reflexivity|].
  cbn [transition_blocks]. rewrite list_filter_app, rules_transition_lines. simpl.
  rewrite IH. reflexivity.
Qed.

Lemma fields_transition_lines i t :
  length (List.filter is_field_line (transition_lines i t)) = screen_field_count t.
Proof.
  unfold transition_lines, screen_field_count.
  destruct (truthy (description (to t))), (statusCategory (to t)),
    (hasScreen t), (transition_fields t) as [[|e es]|]; line_class;
  rewrite ?filter_map_field_line_keep; simpl; rewrite ?length_app, ?length_map;
  simpl; lia.
Qed.

Lemma fields_blocks i ts :
  length (List.filter is_field_line (transition_blocks i ts))
  = sum_list (map screen_field_count ts).
Proof.
  revert i. induction ts as [|t ts IH]; intros i; [reflexivity|].
  cbn [transition_blocks]. rewrite list_filter_app, length_app, fields_transition_lines, IH.
  reflexivity.
Qed.

(** The headings of the [lines] array of [formatTransitions]. *)
Lemma lines_headings response issueIdOrKey :
  List.filter is_heading (formatTransitions_lines response issueIdOrKey)
  = match transitions response with
    | Some (t :: ts) =>
        imap (fun i t => "## " +:+ number_to_string (i + 1)%nat +:+ ". " +:+ transition_name t)
          (t :: ts) ++ ["## Usage"]
    | _ => []
    end.
Proof.
  unfold formatTransitions_lines.
  destruct (transitions response) as [[|t ts]|].
  - unfold no_transitions_lines. line_class. reflexivity.
  - unfold usage_lines. line_class. rewrite headings_blocks. reflexivity.
  - unfold no_transitions_lines. line_class. reflexivity.
Qed.

(** The [---] lines of the [lines] array of [formatTransitions]. *)
Lemma lines_rule_count response issueIdOrKey :
  length (List.filter is_rule (formatTransitions_lines response issueIdOrKey))
  = match transitions response with Some ts => length ts | None => 0%nat end.
Proof.
  unfold formatTransitions_lines.
  destruct (transitions response) as [[|t ts]|].
  - unfold no_transitions_lines. line_class. reflexivity.
  - unfold usage_lines. line_class.
    rewrite !length_app, rules_blocks. simpl. lia.
  - unfold no_transitions_lines. line_class. reflexivity.
Qed.

(** The field lines of the [lines] array of [formatTransitions]. *)
Lemma lines_field_line_count response issueIdOrKey :
  length (List.filter is_field_line (formatTransitions_lines response issueIdOrKey))
  = match transitions response with
    | Some ts => sum_list (map screen_field_count ts)
    | None => 0%nat
    end.
Proof.
  unfold formatTransitions_lines.
  destruct (transitions response) as [[|t ts]|].
  - unfold no_transitions_lines. line_class. reflexivity.
  - unfold usage_lines. line_class.
    rewrite !length_app, fields_blocks. simpl. lia.
  - unfold no_transitions_lines. line_class. reflexivity.
Qed.

Lemma string_app_assoc s t u : ((s +:+ t) +:+ u)%string = (s +:+ t +:+ u)%string.
Proof. induction s as [|c s IH]; [reflexivity|]. rewrite !append_cons, IH. reflexivity. Qed.

Lemma string_app_nil_r s : (s +:+ EmptyString)%string = s.
Proof. induction s as [|c s IH]; [reflexivity|]. rewrite append_cons, IH. reflexivity. Qed.

Lemma decimal_value_aux_app s t acc :
  decimal_value_aux (s +:+ t) acc = decimal_value_aux t (decimal_value_aux s acc).
Proof.
  revert acc. induction s as [|c s IH]; intros acc; [reflexivity|].
  rewrite append_cons. simpl. apply IH.
Qed.

Lemma digit_char m : (m < 10)%nat -> nat_of_ascii (ascii_of_nat (48 + m)) = (48 + m)%nat.
Proof. intros H. apply nat_ascii_embedding. lia. Qed.

Lemma decimal_aux_spec fuel n acc :
  (n <= fuel)%nat ->
  exists d, decimal_aux fuel n acc = (d +:+ acc)%string /\ d <> EmptyString
            /\ all_chars is_digit d = true /\ decimal_value d = n.
Proof.
  revert n acc. induction fuel as [|fuel IH]; intros n acc Hn.
  - assert (n = 0%nat) as -> by lia.
    exists (String (ascii_of_nat 48) EmptyString). split; [reflexivity|].
    split; [discriminate|]. split; reflexivity.
  - pose proof (Nat.mod_upper_bound n 10 ltac:(lia)) as Hm.
    pose proof (Nat.div_mod n 10 ltac:(lia)) as Hd.
    set (c := ascii_of_nat (48 + n mod 10)).
    assert (Hcode : nat_of_ascii c = (48 + n mod 10)%nat) by (apply digit_char; exact Hm).
    assert (Hc : is_digit c = true).
    { unfold is_digit. rewrite Hcode. apply andb_true_iff. split; apply Nat.leb_le; lia. }
    assert (Hval1 : forall acc0, decimal_value_aux (String c EmptyString) acc0
                                 = (acc0 * 10 + n mod 10)%nat).
    { intros acc0. cbn [decimal_value_aux]. rewrite Hcode. lia. }
    cbn [decimal_aux]. fold c. destruct (Nat.ltb_spec n 10) as [Hlt|Hge].
    + exists (String c EmptyString).
      split; [reflexivity|]. split; [discriminate|].
      split; [cbn [all_chars]; rewrite Hc; reflexivity|].
      unfold decimal_value. rewrite Hval1. rewrite Nat.mod_small by exact Hlt. lia.
    + destruct (IH (n / 10)%nat (String c acc)) as (d & Heq & Hne & Hdig & Hval).
      { lia. }
      exists (d +:+ String c EmptyString).
      split; [rewrite Heq, string_app_assoc; reflexivity|].
      split; [destruct d; [contradiction|discriminate]|].
      split; [rewrite all_chars_app, Hdig; cbn [all_chars]; rewrite Hc; reflexivity|].
      unfold decimal_value in *. rewrite decimal_value_aux_app, Hval, Hval1. lia.
Qed.

(** X16. The numbers [formatTransitions] prints (the transition count and
    the [index + 1] of each heading) are rendered as a non-empty string of
    decimal digits whose value is the number. *)
Theorem number_to_string_decimal n :
  number_to_string n <> EmptyString
  /\ all_chars is_digit (number_to_string n) = true
  /\ decimal_value (number_to_string n) = n.
Proof.
  destruct (decimal_aux_spec n n EmptyString (le_n n)) as (d & Heq & Hne & Hdig & Hval).
  unfold number_to_string. rewrite Heq, string_app_nil_r.
  auto.
Qed.

(** * The lines of the text [formatTransitions] returns *)

Lemma split_lines_not_nil s : split_lines s <> [].
Proof.
  destruct s as [|c s]; cbn [split_lines]; [discriminate|].
  destruct (Ascii.eqb c "010"%char); [discriminate|].
  destruct (split_lines s); discriminate.
Qed.

Lemma split_lines_app l r :
  no_newline l = true ->
  split_lines (l +:+ r) = match split_lines r with
                          | h :: t => (l +:+ h) :: t
                          | [] => [l]
                          end.
Proof.
  induction l as [|c l IH]; intros H.
  - change (EmptyString +:+ r) with r. pose proof (split_lines_not_nil r).
    destruct (split_lines r); [contradiction|reflexivity].
  - unfold no_newline in H. cbn [all_chars] in H. apply andb_true_iff in H as [Hc H].
    rewrite append_cons. cbn [split_lines].
    destruct (Ascii.eqb c "010"%char); [discriminate|].
    rewrite IH by exact H. destruct (split_lines r); reflexivity.
Qed.

Lemma split_lines_no_newline l : no_newline l = true -> split_lines l = [l].
Proof.
  intros H. rewrite <- (string_app_nil_r l), split_lines_app by exact H.
  reflexivity.
Qed.

Lemma split_join_lines ls :
  forallb no_newline ls = true -> ls <> [] -> split_lines (join_lines ls) = ls.
Proof.
  induction ls as [|l [|l2 rest] IH]; intros H Hne; [contradiction| |].
  - cbn [forallb] in H. apply andb_true_iff in H as [H _].
    apply split_lines_no_newline. exact H.
  - cbn [forallb] in H. apply andb_true_iff in H as [Hl H].
    change (join_lines (l :: l2 :: rest))
      with (l +:+ String "010"%char EmptyString +:+ join_lines (l2 :: rest)).
    rewrite split_lines_app by exact Hl. rewrite append_cons.
    cbn [split_lines Ascii.eqb Bool.eqb].
    change (EmptyString +:+ join_lines (l2 :: rest)) with (join_lines (l2 :: rest)).
    rewrite IH by (first [exact H | discriminate]). rewrite string_app_nil_r. reflexivity.
Qed.

Lemma no_newline_app a b : no_newline (a +:+ b) = no_newline a && no_newline b.
Proof. apply all_chars_app. Qed.

Lemma number_no_newline n : no_newline (number_to_string n) = true.
Proof.
  destruct (decimal_aux_spec n n EmptyString (le_n n)) as (d & Heq & _ & Hdig & _).
  unfold number_to_string. rewrite Heq, string_app_nil_r.
  unfold no_newline. clear Heq. induction d as [|c d IH]; [reflexivity|].
  cbn [all_chars] in *. apply andb_true_iff in Hdig as [Hc Hdig].
  rewrite IH by exact Hdig. unfold is_digit in Hc.
  destruct (Ascii.eqb_spec c "010"%char) as [->|]; [discriminate|reflexivity].
Qed.

Ltac text_ok :=
  repeat match goal with H : _ && _ = true |- _ => apply andb_true_iff in H as [? ?] end;
  rewrite ?forallb_app; cbn [forallb];
  rewrite ?no_newline_app, ?number_no_newline;
  repeat match goal with H : no_newline ?x = true |- context [no_newline ?x] => rewrite H end;
  reflexivity.

Lemma field_line_ok e : field_text_ok e = true -> no_newline (field_line e) = true.
Proof.
  destruct e as [fieldId field]. unfold field_text_ok, field_line. intros H.
  destruct (field_name field) as [n|]; cbn iota zeta in *;
    destruct (truthy _), (required field); text_ok.
Qed.

Lemma map_field_line_ok es :
  forallb field_text_ok es = true -> forallb no_newline (map field_line es) = true.
Proof.
  induction es as [|e es IH]; intros H; [reflexivity|].
  cbn [forallb map] in *. apply andb_true_iff in H as [He H].
  rewrite field_line_ok, IH by assumption. reflexivity.
Qed.

Lemma transition_lines_ok i t :
  transition_text_ok t = true -> forallb no_newline (transition_lines i t) = true.
Proof.
  unfold transition_text_ok, transition_lines. intros H.
  destruct (description (to t)) as [d|], (statusCategory (to t)) as [sc|],
    (transition_fields t) as [es|]; cbn iota in H;
  destruct (truthy _), (hasScreen t); try destruct es as [|e es];
  repeat match goal with H : _ && _ = true |- _ => apply andb_true_iff in H as [? ?] end;
  rewrite ?forallb_app; cbn [forallb];
  rewrite ?map_field_line_ok by assumption;
  text_ok.
Qed.

Lemma transition_blocks_ok i ts :
  forallb transition_text_ok ts = true -> forallb no_newline (transition_blocks i ts) = true.
Proof.
  revert i. induction ts as [|t ts IH]; intros i H; [reflexivity|].
  cbn [forallb] in H. apply andb_true_iff in H as [Ht H].
  cbn [transition_blocks]. rewrite forallb_app, transition_lines_ok, IH by assumption.
  reflexivity.
Qed.

Lemma formatTransitions_split_lines response issueIdOrKey :
  response_text_ok response issueIdOrKey = true ->
  split_lines (formatTransitions response issueIdOrKey)
  = formatTransitions_lines response issueIdOrKey.
Proof.
  unfold response_text_ok, formatTransitions. intros H.
  apply andb_true_iff in H as [Hk H].
  apply split_join_lines; unfold formatTransitions_lines;
    destruct (transitions response) as [[|t ts]|]; try discriminate.
  - unfold no_transitions_lines. text_ok.
  - unfold usage_lines. rewrite !forallb_app, transition_blocks_ok by exact H. text_ok.
  - unfold no_transitions_lines. text_ok.
Qed.

(** X13. When no interpolated text contains a line break, the level-two
    headings among the lines of [formatTransitions]'s text are, in order,
    ["## 1. <name>"], ["## 2. <name>"], ... for the transitions of the
    response, followed by ["## Usage"]; when the response has no
    transitions (absent or empty list) there is none. *)
Theorem formatTransitions_headings response issueIdOrKey :
  response_text_ok response issueIdOrKey = true ->
  List.filter is_heading (split_lines (formatTransitions response issueIdOrKey))
  = match transitions response with
    | Some (t :: ts) =>
        imap (fun i t => "## " +:+ number_to_string (i + 1)%nat +:+ ". " +:+ transition_name t)
          (t :: ts) ++ ["## Usage"]
    | _ => []
    end.
Proof.
  intros H. rewrite formatTransitions_split_lines by exact H. apply lines_headings.
Qed.

Lemma formatTransitions_headings_witness :
  response_text_ok (mkGetTransitionsResponse (Some [to_do; in_progress])) "TEST-123" = true
  /\ List.filter is_heading
       (split_lines (formatTransitions (mkGetTransitionsResponse (Some [to_do; in_progress])) "TEST-123"))
     = ["## 1. To Do"; "## 2. In Progress"; "## Usage"].
Proof.
  split; [vm_compute; reflexivity|].
  apply (formatTransitions_headings (mkGetTransitionsResponse (Some [to_do; in_progress])) "TEST-123").
  vm_compute. reflexivity.
Defined.

(** X14. When no interpolated text contains a line break, the text of
    [formatTransitions] separates transitions with exactly one ["---"] line
    each: the number of such lines is the number of transitions in the
    response (zero when the list is absent or empty). *)
Theorem formatTransitions_rule_count response issueIdOrKey :
  response_text_ok response issueIdOrKey = true ->
  length (List.filter is_rule (split_lines (formatTransitions response issueIdOrKey)))
  = match transitions response with Some ts => length ts | None => 0%nat end.
Proof.
  intros H. rewrite formatTransitions_split_lines by exact H. apply lines_rule_count.
Qed.

Lemma formatTransitions_rule_count_witness :
  response_text_ok (mkGetTransitionsResponse (Some [to_do; in_progress])) "TEST-123" = true
  /\ length (List.filter is_rule
       (split_lines (formatTransitions (mkGetTransitionsResponse (Some [to_do; in_progress])) "TEST-123")))
     = 2%nat.
Proof.
  split; [vm_compute; reflexivity|].
  apply (formatTransitions_rule_count (mkGetTransitionsResponse (Some [to_do; in_progress])) "TEST-123").
  vm_compute. reflexivity.
Defined.

(** X15. When no interpolated text contains a line break, the field lines
    ([- **...**]) among the lines of [formatTransitions]'s text are those of
    the transitions with a screen: their number is the sum, over the
    transitions with [hasScreen], of the number of entries of
    [transition.fields]; a transition without a screen lists none of its
    fields. *)
Theorem formatTransitions_field_line_count response issueIdOrKey :
  response_text_ok response issueIdOrKey = true ->
  length (List.filter is_field_line (split_lines (formatTransitions response issueIdOrKey)))
  = match transitions response with
    | Some ts => sum_list (map screen_field_count ts)
    | None => 0%nat
    end.
Proof.
  intros H. rewrite formatTransitions_split_lines by exact H. apply lines_field_line_count.
Qed.

Lemma formatTransitions_field_line_count_witness :
  response_text_ok (mkGetTransitionsResponse (Some [done_with_screen])) "BUG-456" = true
  /\ length (List.filter is_field_line
       (split_lines (formatTransitions (mkGetTransitionsResponse (Some [done_with_screen])) "BUG-456")))
     = 2%nat.
Proof.
  split; [vm_compute; reflexivity|].
  apply (formatTransitions_field_line_count (mkGetTransitionsResponse (Some [done_with_screen])) "BUG-456").
  vm_compute. reflexivity.
Defined.

(** * The cache entries a resolution leaves behind *)

Lemma cache_get_frame now identifier c r c' k :
  cache_get now identifier c = (r, c') -> k <> toLowerCase identifier -> c' !! k = c !! k.
Proof.
  unfold cache_get. intros E Hk.
  destruct (c !! toLowerCase identifier) as [e|]; [destruct (now - timestamp e <? TTL)|];
    injection E as _ <-; try reflexivity.
  apply lookup_delete_ne. congruence.
Qed.

(** X17. A resolution touches the user cache only under the lower-cased
    identifier it resolves: every other key keeps its entry (or its
    absence), whatever the transport answers. *)
Theorem resolve_cache_frame env now identifier s k :
  k <> toLowerCase identifier ->
  cache (snd (resolveUserIdentifier env now identifier s)) !! k = cache s !! k.
Proof.
  intros Hk.
  destruct (String.eqb_spec identifier EmptyString) as [->|Hne]; [reflexivity|].
  destruct (isAccountId identifier) eqn:Hacc.
  { unfold resolveUserIdentifier.
    destruct (String.eqb_spec identifier EmptyString); [contradiction|].
    rewrite Hacc. reflexivity. }
  rewrite resolve_non_account, resolve_via_cache_eq by assumption.
  destruct s as [c l]. simpl.
  assert (Hsearch : forall c', c' !! k = c !! k ->
            cache (snd (resolve_by_search env now identifier (mkSt c' l))) !! k = c !! k).
  { intros c' H. rewrite resolve_by_search_eq. simpl.
    destruct (chain_found env identifier); [|exact H].
    unfold cache_set. rewrite lookup_insert_ne by congruence. exact H. }
  destruct (cache_get now identifier c) as [[a|] c'] eqn:E.
  - destruct (String.eqb a EmptyString).
    + apply Hsearch. exact (cache_get_frame now identifier c _ c' k E Hk).
    + exact (cache_get_frame now identifier c _ c' k E Hk).
  - apply Hsearch. exact (cache_get_frame now identifier c _ c' k E Hk).
Qed.

Lemma resolve_cache_frame_witness :
  cache (snd (resolveUserIdentifier env_directory_hit (TTL + 5) "cached@example.com"
                st_expired)) !! "nobody@example.com"
  = cache st_expired !! "nobody@example.com".
Proof.
  apply (resolve_cache_frame env_directory_hit (TTL + 5) "cached@example.com" st_expired
           "nobody@example.com").
  vm_compute. discriminate.
Defined.

(** X18. After resolving a non-empty identifier that is not account-id
    shaped at time [now], the cache holds no expired entry under that
    identifier: an expired entry has been deleted, and any entry left
    there (kept from before or just written) is younger than the TTL. *)
Theorem resolve_leaves_no_expired_entry env now identifier s :
  identifier <> EmptyString -> isAccountId identifier = false ->
  match cache (snd (resolveUserIdentifier env now identifier s)) !! toLowerCase identifier with
  | Some e => now - timestamp e < TTL
  | None => True
  end.
Proof.
  intros Hne Hacc.
  rewrite resolve_non_account, resolve_via_cache_eq by assumption.
  destruct s as [c l]. simpl.
  assert (Hsearch : forall c',
            match c' !! toLowerCase identifier with
            | Some e => now - timestamp e < TTL | None => True end ->
            match cache (snd (resolve_by_search env now identifier (mkSt c' l)))
                    !! toLowerCase identifier with
            | Some e => now - timestamp e < TTL | None => True end).
  { intros c' H. rewrite resolve_by_search_eq. simpl.
    destruct (chain_found env identifier); [|exact H].
    unfold cache_set. rewrite lookup_insert_eq. simpl. unfold TTL. lia. }
  unfold cache_get. destruct (c !! toLowerCase identifier) as [e|] eqn:E.
  - destruct (now - timestamp e <? TTL) eqn:Ht.
    + apply Z.ltb_lt in Ht.
      destruct (String.eqb (entry_accountId e) EmptyString).
      * apply Hsearch. rewrite E. exact Ht.
      * simpl. rewrite E. exact Ht.
    + apply Hsearch. rewrite lookup_delete_eq. exact I.
  - apply Hsearch. rewrite E. exact I.
Qed.

Lemma resolve_leaves_no_expired_entry_witness :
  match cache (snd (resolveUserIdentifier env_no_credentials (TTL + 5) "Nobody@Example.com"
                      st_expired)) !! toLowerCase "Nobody@Example.com" with
  | Some e => TTL + 5 - timestamp e < TTL
  | None => True
  end.
Proof.
  apply (resolve_leaves_no_expired_entry env_no_credentials (TTL + 5) "Nobody@Example.com"
           st_expired).
  - discriminate.
  - vm_compute. reflexivity.
Defined.
